(** * Clustering-accuracy evaluation core of [baseline/run_and_compare.py]

    A shallow embedding of [accuracy_metrics], [purity_metric] and
    [collapse_pure_clusters], together with the length guard of [run_all],
    and the properties the specification states about them.

    Modelling choices.
    - Labels are strings ([load_event_ids] returns [str] values).
    - A Python [dict] (and [Counter]) keeps its keys in insertion order; it is
      an association list with unique keys, updated in place or extended at
      its end.  A Python [set] is only asked for its size and, when that size
      is one, for its element; it is a duplicate-free list.
    - Python integers are [Z]; [//] is [Z.div].
    - True division [/] of two integers is an exact rational ([Q]), compared
      with [Qeq].  The metrics are therefore the exact quotients, not their
      binary64 roundings.
    - A raised exception is [Raise e] in the [result] type.  [truth[i]] may
      raise [IndexError] and [mapping[p]] may raise [KeyError]; [run_all]
      raises [ValueError] on a length mismatch.
    - [true_div] is total, it gives 0 on a zero denominator.  The module
      [Raising] embeds the operations once more with a division that raises
      [ZeroDivisionError], and the two embeddings are proved equal: no
      division of the code meets a zero denominator.
    - [run_all] is modelled from the point where both label sequences are
      loaded: the length guard, the calls of the three core operations, and
      the [except] clause that turns a raised exception into an error entry. *)

From Stdlib Require Import Ascii String ZArith QArith Lia Lqa Bool List.
Import ListNotations.
Open Scope Z_scope.

Definition label := string.

(** ** Exceptions *)

Inductive exn : Type := IndexError | KeyError | ValueError | ZeroDivisionError.

Inductive result (A : Type) : Type :=
| Ok (a : A)
| Raise (e : exn).
Arguments Ok {A} a.
Arguments Raise {A} e.

Definition bind {A B : Type} (r : result A) (k : A -> result B) : result B :=
  match r with
  | Ok a => k a
  | Raise e => Raise e
  end.

Notation "x <- r ;; k" := (bind r (fun x => k))
  (at level 61, r at next level, right associativity).

(** [for x in xs: st = body st x], where the body may raise. *)
Fixpoint for_each {A S : Type} (body : S -> A -> result S) (xs : list A) (st : S)
  : result S :=
  match xs with
  | [] => Ok st
  | x :: r => st' <- body st x ;; for_each body r st'
  end.

(** [[f(x) for x in xs]], where [f] may raise. *)
Fixpoint map_result {A B : Type} (f : A -> result B) (xs : list A) : result (list B) :=
  match xs with
  | [] => Ok []
  | x :: r => y <- f x ;; ys <- map_result f r ;; Ok (y :: ys)
  end.

(** ** Insertion-ordered dictionaries keyed by labels *)

Module PyDict.
Section Dict.
Context {V : Type}.

Definition dict := list (label * V).

Fixpoint get (d : dict) (k : label) : option V :=
  match d with
  | [] => None
  | (k', v) :: r => if String.eqb k k' then Some v else get r k
  end.

(** [d.get(k, dflt)] *)
Definition get_default (d : dict) (k : label) (dflt : V) : V :=
  match get d k with
  | Some v => v
  | None => dflt
  end.

(** [d[k]] *)
Definition subscript (d : dict) (k : label) : result V :=
  match get d k with
  | Some v => Ok v
  | None => Raise KeyError
  end.

(** [d[k] = f(d[k])] when [k] is a key, [d[k] = f(None)] (a new last entry)
    otherwise. *)
Fixpoint upsert (k : label) (f : option V -> V) (d : dict) : dict :=
  match d with
  | [] => [(k, f None)]
  | (k', v) :: r =>
      if String.eqb k k' then (k', f (Some v)) :: r
      else (k', v) :: upsert k f r
  end.

Definition keys (d : dict) : list label := map fst d.
Definition values (d : dict) : list V := map snd d.
Definition items (d : dict) : list (label * V) := d.
End Dict.
Arguments dict V : clear implicits.
End PyDict.
Import PyDict.

(** ** Built-ins *)

Definition len {A : Type} (l : list A) : Z := Z.of_nat (length l).

(** [sum(xs)] on integers *)
Definition sum (xs : list Z) : Z := fold_left Z.add xs 0.

(** [max(xs) if xs else 0] *)
Definition max_or_0 (xs : list Z) : Z :=
  match xs with
  | [] => 0
  | x :: r => fold_left Z.max r x
  end.

(** [enumerate(xs)] *)
Definition enumerate {A : Type} (xs : list A) : list (nat * A) :=
  combine (seq 0 (length xs)) xs.

(** [zip(xs, ys)] stops at the shorter argument, as [combine] does. *)
Definition zip {A B : Type} (xs : list A) (ys : list B) : list (A * B) :=
  combine xs ys.

(** [xs[i]] for a non-negative index *)
Definition getitem {A : Type} (xs : list A) (i : nat) : result A :=
  match nth_error xs i with
  | Some x => Ok x
  | None => Raise IndexError
  end.

(** [d.setdefault(k, []).append(x)] *)
Definition setdefault_append {A : Type} (k : label) (x : A) (d : dict (list A))
  : dict (list A) :=
  upsert k (fun o => match o with Some l => l ++ [x] | None => [x] end) d.

(** [c[k] += 1] on a [Counter] *)
Definition counter_incr (k : label) (c : dict Z) : dict Z :=
  upsert k (fun o => match o with Some n => n + 1 | None => 1 end) c.

(** [Counter(xs)] *)
Definition Counter (xs : list label) : dict Z :=
  fold_left (fun c k => counter_incr k c) xs [].

(** [s.add(x)] on a set *)
Definition set_add (x : label) (s : list label) : list label :=
  if existsb (String.eqb x) s then s else s ++ [x].

(** True division of integers. *)
Definition true_div (a b : Z) : Q := (inject_Z a / inject_Z b)%Q.

(** ** [accuracy_metrics] *)

Definition comb2 (n : Z) : Z := if n <? 2 then 0 else n * (n - 1) / 2.

Record metrics : Type := Metrics {
  GA : Q;
  GA_precision : Q;
  GA_recall : Q;
  PA : Q
}.

Definition pairs_of (counts : dict Z) : Z := sum (map comb2 (values counts)).

Definition idx_by_pred (pred : list label) : dict (list nat) :=
  fold_left (fun d '(idx, pid) => setdefault_append pid idx d) (enumerate pred) [].

(** One iteration of [for pid, idxs in idx_by_pred.items()]; the state is
    [(accurate_pairs, accurate_events)].  [next(iter(gt_counts))] is the first
    key; it is only evaluated when there is exactly one key, so the [[]]
    branch below is never taken. *)
Definition group_body (truth : list label) (truth_counts : dict Z)
    (st : Z * Z) (item : label * list nat) : result (Z * Z) :=
  let '(accurate_pairs, accurate_events) := st in
  let '(_, idxs) := item in
  gts <- map_result (getitem truth) idxs ;;
  let gt_counts := Counter gts in
  let accurate_events :=
    if len gt_counts =? 1 then
      match keys gt_counts with
      | gt_id :: _ =>
          if len idxs =? get_default truth_counts gt_id 0
          then accurate_events + len idxs
          else accurate_events
      | [] => accurate_events
      end
    else accurate_events in
  Ok (accurate_pairs + pairs_of gt_counts, accurate_events).

Definition is_zero (q : Q) : bool := Qeq_bool q 0.

Definition accuracy_metrics (truth pred : list label) : result metrics :=
  let truth_counts := Counter truth in
  let real_pairs := pairs_of truth_counts in
  let pred_counts := Counter pred in
  let parsed_pairs := pairs_of pred_counts in
  st <- for_each (group_body truth truth_counts) (items (idx_by_pred pred)) (0, 0) ;;
  let '(accurate_pairs, accurate_events) := st in
  let precision := if parsed_pairs =? 0 then 0%Q else true_div accurate_pairs parsed_pairs in
  let recall := if real_pairs =? 0 then 0%Q else true_div accurate_pairs real_pairs in
  let f1 :=
    if is_zero precision && is_zero recall then 0%Q
    else (2 * precision * recall / (precision + recall))%Q in
  let accuracy := if len truth =? 0 then 0%Q else true_div accurate_events (len truth) in
  Ok (Metrics f1 precision recall accuracy).

(** ** [purity_metric] *)

Definition base_to_other (base_ids other_ids : list label) : dict (dict Z) :=
  fold_left
    (fun d '(b, o) =>
       upsert b (fun oc => counter_incr o (match oc with Some c => c | None => [] end)) d)
    (zip base_ids other_ids) [].

(** The second loop of [purity_metric]; the state is [(top_sum, total_sum)]. *)
Definition purity_sums (tbl : dict (dict Z)) : Z * Z :=
  fold_left
    (fun '(top_sum, total_sum) counts =>
       let total := sum (values counts) in
       let top := max_or_0 (values counts) in
       (top_sum + top, total_sum + total))
    (values tbl) (0, 0).

Definition purity_metric (base_ids other_ids : list label) : Q :=
  let '(top_sum, total_sum) := purity_sums (base_to_other base_ids other_ids) in
  if total_sum =? 0 then 0%Q else true_div top_sum total_sum.

(** ** [collapse_pure_clusters] *)

Definition PURE_TAG : string := "__PURE__#".

Definition gt_by_pred (truth pred : list label) : dict (list label) :=
  fold_left
    (fun d '(p, t) =>
       upsert p (fun os => set_add t (match os with Some s => s | None => [] end)) d)
    (zip pred truth) [].

(** One iteration of [for p in pred]; the state is [(mapping, pure_mask)].
    [next(iter(gts))] is only evaluated on a set of size one, so the [[]]
    branch below is never taken. *)
Definition collapse_body (gbp : dict (list label))
    (st : dict label * list bool) (p : label) : dict label * list bool :=
  let '(mapping, pure_mask) := st in
  let gts := get_default gbp p [] in
  if len gts =? 1 then
    match gts with
    | only_gt :: _ =>
        (upsert p (fun _ => String.append PURE_TAG only_gt) mapping, pure_mask ++ [true])
    | [] => (mapping, pure_mask)
    end
  else (upsert p (fun _ => p) mapping, pure_mask ++ [false]).

(** [sum(pure_mask)]: [True] counts for 1. *)
Definition sum_mask (m : list bool) : Z := sum (map (fun b : bool => if b then 1 else 0) m).

Definition collapse_pure_clusters (truth pred : list label)
  : result (list label * Q) :=
  let gbp := gt_by_pred truth pred in
  let '(mapping, pure_mask) := fold_left (collapse_body gbp) pred ([], []) in
  merged_pred <- map_result (subscript mapping) pred ;;
  let pure_coverage :=
    if len pred =? 0 then 0%Q else true_div (sum_mask pure_mask) (len pred) in
  Ok (merged_pred, pure_coverage).

(** ** The comparison step of [run_all] *)

Record comparison : Type := Comparison {
  strict : metrics;
  predPure : Q;
  gtPure : Q;
  friendly : metrics;
  pureCoverage : Q
}.

(** The body of the [try] block of [run_all] once both sequences are loaded. *)
Definition compare_pair (truth pred : list label) : result comparison :=
  if negb (len truth =? len pred) then Raise ValueError
  else
    m <- accuracy_metrics truth pred ;;
    let pp := purity_metric pred truth in
    let gp := purity_metric truth pred in
    c <- collapse_pure_clusters truth pred ;;
    let '(friendly_pred, pure_cov) := c in
    f <- accuracy_metrics truth friendly_pred ;;
    Ok (Comparison m pp gp f pure_cov).

(** What [run_all] appends to [results] for one (method, dataset): the
    metrics, or the error entry written by the [except] clause. *)
Inductive entry : Type :=
| Scored (c : comparison)
| Failed (e : exn).

Definition run_pair (tp : list label * list label) : entry :=
  match compare_pair (fst tp) (snd tp) with
  | Ok c => Scored c
  | Raise e => Failed e
  end.

Definition run_batch (pairs : list (list label * list label)) : list entry :=
  map run_pair pairs.

(** ** Division that raises

    [true_div] is total: it gives 0 where [/] raises [ZeroDivisionError].
    Every division of the source sits behind a test of its denominator, but a
    total division cannot tell whether such a test is needed.  The module
    [Raising] embeds the three core operations and the comparison step of
    [run_all] once more, with a division that raises; the loops are those
    above. *)

Module Raising.

(** [a / b] on integers *)
Definition div (a b : Z) : result Q :=
  if b =? 0 then Raise ZeroDivisionError else Ok (true_div a b).

(** [x / y] on floats *)
Definition float_div (x y : Q) : result Q :=
  if is_zero y then Raise ZeroDivisionError else Ok (x / y)%Q.

Definition accuracy_metrics (truth pred : list label) : result metrics :=
  let truth_counts := Counter truth in
  let real_pairs := pairs_of truth_counts in
  let pred_counts := Counter pred in
  let parsed_pairs := pairs_of pred_counts in
  st <- for_each (group_body truth truth_counts) (items (idx_by_pred pred)) (0, 0) ;;
  let '(accurate_pairs, accurate_events) := st in
  precision <- (if parsed_pairs =? 0 then Ok 0%Q else div accurate_pairs parsed_pairs) ;;
  recall <- (if real_pairs =? 0 then Ok 0%Q else div accurate_pairs real_pairs) ;;
  f1 <- (if is_zero precision && is_zero recall then Ok 0%Q
         else float_div (2 * precision * recall) (precision + recall)) ;;
  accuracy <- (if len truth =? 0 then Ok 0%Q else div accurate_events (len truth)) ;;
  Ok (Metrics f1 precision recall accuracy).

Definition purity_metric (base_ids other_ids : list label) : result Q :=
  let '(top_sum, total_sum) := purity_sums (base_to_other base_ids other_ids) in
  if total_sum =? 0 then Ok 0%Q else div top_sum total_sum.

Definition collapse_pure_clusters (truth pred : list label)
  : result (list label * Q) :=
  let gbp := gt_by_pred truth pred in
  let '(mapping, pure_mask) := fold_left (collapse_body gbp) pred ([], []) in
  merged_pred <- map_result (subscript mapping) pred ;;
  pure_coverage <-
    (if len pred =? 0 then Ok 0%Q else div (sum_mask pure_mask) (len pred)) ;;
  Ok (merged_pred, pure_coverage).

(** The body of the [try] block of [run_all] once both sequences are loaded. *)
Definition compare_pair (truth pred : list label) : result comparison :=
  if negb (len truth =? len pred) then Raise ValueError
  else
    m <- accuracy_metrics truth pred ;;
    pp <- purity_metric pred truth ;;
    gp <- purity_metric truth pred ;;
    c <- collapse_pure_clusters truth pred ;;
    let '(friendly_pred, pure_cov) := c in
    f <- accuracy_metrics truth friendly_pred ;;
    Ok (Comparison m pp gp f pure_cov).

End Raising.

(** ** [get_ground_truth]

    The argument is the list of file names that [dataset_dir.glob("*.csv")]
    yields, in the order it yields them; all of them lie in [dataset_dir], so
    a path is known by its name.  A name is the string of its UTF-8 bytes,
    whose order is the order of the code points Python compares.  [None]
    stands for the raised [FileNotFoundError]. *)

(** [s.endswith(suffix)]: some tail of [s] is [suffix]. *)
Fixpoint endswith (s suffix : string) : bool :=
  String.eqb s suffix ||
  match s with
  | EmptyString => false
  | String _ s' => endswith s' suffix
  end.

(** [sub in s]: some tail of [s] starts with [sub]. *)
Fixpoint contains (s sub : string) : bool :=
  String.prefix sub s ||
  match s with
  | EmptyString => false
  | String _ s' => contains s' sub
  end.

(** The filter of the list comprehension. *)
Definition is_candidate (name : string) : bool :=
  endswith name "_structured_corrected.csv" || endswith name "_structured.csv".

(** [key=lambda p: ("corrected" not in p.name, p.name)] *)
Definition sort_key (name : string) : bool * string :=
  (negb (contains name "corrected"), name).

(** [k1 < k2] on (bool, str) tuples: the first components decide unless they
    are equal; [False < True]; strings are compared code point by code
    point. *)
Definition key_ltb (k1 k2 : bool * string) : bool :=
  if Bool.eqb (fst k1) (fst k2) then String.ltb (snd k1) (snd k2)
  else negb (fst k1) && fst k2.

(** [sorted(xs, key=sort_key)].  Python's sort is stable and compares with
    [<] only; a stable sort has one possible result, which insertion after
    the elements that are not greater computes. *)
Fixpoint insert_sorted (x : string) (l : list string) : list string :=
  match l with
  | [] => [x]
  | y :: r =>
      if key_ltb (sort_key x) (sort_key y) then x :: y :: r
      else y :: insert_sorted x r
  end.

Definition sorted_by_key (xs : list string) : list string :=
  fold_left (fun acc x => insert_sorted x acc) xs [].

Definition get_ground_truth (globbed : list string) : option string :=
  let candidates := sorted_by_key (filter is_candidate globbed) in
  match candidates with
  | [] => None
  | first :: _ => Some first
  end.

(** ** [run_all]

    The parsers, the benchmark settings and the file system are outside the
    embedding and enter as parameters:
    - [Setting] is an entry of a [benchmark_settings] dictionary and
      [bench_settings method dataset] is [bench_settings.get(dataset)] for
      the settings loaded for [method];
    - [dataset_exists dataset] is [dataset_dir.exists()];
    - [load method dataset setting] is the outcome of [run_parser],
      [get_ground_truth] and the two calls of [load_event_ids]: the exception
      one of them raised, or the pair [(truth, pred)].
    What [print] writes is not modelled. *)

(** The keys of the [runners] dictionary. *)
Definition RUNNERS : list string :=
  ["Drain"; "Spell"; "IPLoM"; "LenMa"; "LogMine"]%string.

(** The payload of a dictionary appended to [results]: the metrics, or the
    text of the exception caught by [except Exception]; the exception comes
    from loading or from the comparison step. *)
Inductive outcome (LoadError : Type) : Type :=
| RowMetrics (c : comparison)
| RowLoadError (e : LoadError)
| RowError (e : exn).
Arguments RowMetrics {LoadError} c.
Arguments RowLoadError {LoadError} e.
Arguments RowError {LoadError} e.

Record row (LoadError : Type) : Type := Row {
  row_method : string;
  row_dataset : string;
  row_outcome : outcome LoadError
}.
Arguments Row {LoadError} _ _ _.
Arguments row_method {LoadError} _.
Arguments row_dataset {LoadError} _.
Arguments row_outcome {LoadError} _.

Section RunAll.
Variables Setting LoadError : Type.
Variable bench_settings : string -> string -> option Setting.
Variable dataset_exists : string -> bool.
Variable load : string -> string -> Setting -> LoadError + (list label * list label).

(** The [try] statement for one method and dataset. *)
Definition run_one (method dataset : string) (setting : Setting) : row LoadError :=
  match load method dataset setting with
  | inl e => Row method dataset (RowLoadError e)
  | inr (truth, pred) =>
      match compare_pair truth pred with
      | Ok c => Row method dataset (RowMetrics c)
      | Raise e => Row method dataset (RowError e)
      end
  end.

(** One iteration of [for dataset in datasets]. *)
Definition dataset_body (method : string) (results : list (row LoadError))
    (dataset : string) : list (row LoadError) :=
  match bench_settings method dataset with
  | None => results
  | Some setting =>
      if negb (dataset_exists dataset) then results
      else results ++ [run_one method dataset setting]
  end.

(** One iteration of [for method in methods]. *)
Definition method_body (datasets : list string) (results : list (row LoadError))
    (method : string) : list (row LoadError) :=
  if negb (existsb (String.eqb method) RUNNERS) then results
  else fold_left (dataset_body method) datasets results.

Definition run_all (datasets methods : list string) : list (row LoadError) :=
  fold_left (method_body datasets) methods [].

(** A (method, dataset) pair that reaches the [try] statement. *)
Definition runnable (md : string * string) : bool :=
  existsb (String.eqb (fst md)) RUNNERS &&
  match bench_settings (fst md) (snd md) with
  | Some _ => dataset_exists (snd md)
  | None => false
  end.
End RunAll.
Arguments run_one {Setting LoadError} load method dataset setting.
Arguments dataset_body {Setting LoadError} bench_settings dataset_exists load method results dataset.
Arguments method_body {Setting LoadError} bench_settings dataset_exists load datasets results method.
Arguments run_all {Setting LoadError} bench_settings dataset_exists load datasets methods.
Arguments runnable {Setting} bench_settings dataset_exists md.

(** ** [save_results]: the name of the run directory

    [ts.replace(":", "-").replace(".", "-")], where [ts] is the ISO text of
    the current time. *)

(** [s.replace(old, new)] for one-character [old] and [new]. *)
Fixpoint replace_char (old new : ascii) (s : string) : string :=
  match s with
  | EmptyString => EmptyString
  | String c s' =>
      String (if Ascii.eqb c old then new else c) (replace_char old new s')
  end.

Definition run_dir_name (iso : string) : string :=
  replace_char "." "-" (replace_char ":" "-" iso).

(** ** [modify_benchmark_file] of [modify_benchmarks_no_structure.py]

    A file system maps a path to the text of the file there, [None] when
    there is none.  The two [re.sub] calls are outside the embedding and
    enter as the parameter [rewrite_settings]; [backup_path] is
    [benchmark_path.with_suffix('.py.backup')].  What [print] writes is not
    modelled. *)

Definition filesystem : Type := string -> option string.

(** [path.write_text(text)] *)
Definition write_text (fs : filesystem) (path text : string) : filesystem :=
  fun q => if String.eqb q path then Some text else fs q.

(** [src.rename(dst)] *)
Definition rename (fs : filesystem) (src dst : string) : filesystem :=
  fun q => if String.eqb q dst then fs src
           else if String.eqb q src then None
           else fs q.

Definition modify_benchmark_file (rewrite_settings : string -> string)
    (benchmark_path backup_path : string) (fs : filesystem) : filesystem :=
  match fs benchmark_path with
  | None => fs
  | Some content =>
      let modified := rewrite_settings content in
      let fs :=
        match fs backup_path with
        | None =>
            let fs :=
              match fs backup_path with
              | Some content_backup => write_text fs benchmark_path content_backup
              | None => fs
              end in
            rename fs benchmark_path backup_path
        | Some _ => fs
        end in
      write_text fs benchmark_path modified
  end.

(** * Auxiliary definitions

    The lemmas below are phrased with these; none of them is part of the
    embedded code. *)

(** A sum taken over the values of a dictionary. *)
Definition dsum {V : Type} (F : V -> Z) (d : dict V) : Z := sum (map F (values d)).

(** [occ eqv x l]: how many elements of [l] are related to [x]. *)
Definition occ {A : Type} (eqv : A -> A -> bool) (x : A) (l : list A) : Z :=
  len (filter (eqv x) l).

(** Every element is counted against the elements after it. *)
Fixpoint pairs_back {A : Type} (eqv : A -> A -> bool) (l : list A) : Z :=
  match l with
  | [] => 0
  | x :: r => occ eqv x r + pairs_back eqv r
  end.

(** [agree_pairs eqv l] is the number of positions [i < j] of [l] whose
    elements are related by [eqv]: every element is counted against the
    elements before it. *)
Definition agree_pairs {A : Type} (eqv : A -> A -> bool) (l : list A) : Z :=
  pairs_back eqv (rev l).

(** The relation on (truth, pred) pairs: same cluster on both sides. *)
Definition pair_eqb (a b : label * label) : bool :=
  String.eqb (fst a) (fst b) && String.eqb (snd a) (snd b).

(** [idx_by_pred] with every index replaced by the ground-truth label found
    there; [z] is the list of (truth, pred) pairs. *)
Definition groups_of (z : list (label * label)) : dict (list label) :=
  fold_left (fun d '(t, p) => setdefault_append p t d) z [].

(** The ground-truth labels of the lines predicted as [p]. *)
Definition group (z : list (label * label)) (p : label) : list label :=
  map fst (filter (fun tp => String.eqb p (snd tp)) z).

(** The events one predicted group contributes to [accurate_events]. *)
Definition events_of (truth_counts : dict Z) (gts : list label) : Z :=
  let gt_counts := Counter gts in
  if len gt_counts =? 1 then
    match keys gt_counts with
    | gt_id :: _ => if len gts =? get_default truth_counts gt_id 0 then len gts else 0
    | [] => 0
    end
  else 0.

(** Two dictionaries with the same keys in the same order and related
    values. *)
Definition entrywise {V W : Type} (R : V -> W -> Prop) : dict V -> dict W -> Prop :=
  Forall2 (fun a b => fst a = fst b /\ R (snd a) (snd b)).

(** The indices [idxs] are all inside [truth], where they carry the labels
    [gts]. *)
Definition resolves (truth : list label) (idxs : list nat) (gts : list label) : Prop :=
  map_result (getitem truth) idxs = Ok gts.

(** The closed interval [[0, 1]]. *)
Definition in_unit (q : Q) : Prop := (0 <= q /\ q <= 1)%Q.

(** The F1 line of [accuracy_metrics]. *)
Definition f1_of (precision recall : Q) : Q :=
  if is_zero precision && is_zero recall then 0%Q
  else (2 * precision * recall / (precision + recall))%Q.

(** The closing arithmetic of [accuracy_metrics], from its five counts. *)
Definition scores (accurate_pairs accurate_events parsed_pairs real_pairs n : Z)
  : metrics :=
  let precision := if parsed_pairs =? 0 then 0%Q else true_div accurate_pairs parsed_pairs in
  let recall := if real_pairs =? 0 then 0%Q else true_div accurate_pairs real_pairs in
  let accuracy := if n =? 0 then 0%Q else true_div accurate_events n in
  Metrics (f1_of precision recall) precision recall accuracy.

(** [base_to_other], read off the (base, other) pairs. *)
Definition table_of (z : list (label * label)) : dict (dict Z) :=
  fold_left
    (fun d '(b, o) =>
       upsert b (fun oc => counter_incr o (match oc with Some c => c | None => [] end)) d)
    z [].

(** The value stored in [mapping] for the predicted label [p]. *)
Definition relabel (gbp : dict (list label)) (p : label) : label :=
  match get_default gbp p [] with
  | [only_gt] => String.append PURE_TAG only_gt
  | _ => p
  end.

(** The entry of [pure_mask] for a line predicted as [p]. *)
Definition is_pure (gbp : dict (list label)) (p : label) : bool :=
  len (get_default gbp p []) =? 1.

(** Some entry of the dictionary holds [x]. *)
Definition covers {A : Type} (d : dict (list A)) (x : A) : Prop :=
  Exists (fun kv => In x (snd kv)) d.

(** The test of [accuracy_metrics] for a predicted group that reconstructs one
    ground-truth cluster exactly. *)
Definition exactb (truth_counts : dict Z) (gts : list label) : bool :=
  (len (Counter gts) =? 1) &&
  match keys (Counter gts) with
  | gt_id :: _ => len gts =? get_default truth_counts gt_id 0
  | [] => false
  end.

(** A sum over the entries of a dictionary that may look at the key. *)
Definition ksum {V : Type} (F : label -> V -> Z) (d : dict V) : Z :=
  sum (map (fun kv => F (fst kv) (snd kv)) d).

(** [gt_by_pred], read off the (truth, pred) pairs. *)
Definition sets_of (z : list (label * label)) : dict (list label) :=
  fold_left
    (fun d '(t, p) =>
       upsert p (fun os => set_add t (match os with Some s => s | None => [] end)) d)
    z [].

(** The predicted cluster [p] holds at least one line, and only lines of the
    ground-truth cluster [t]; [z] is the list of (truth, pred) pairs. *)
Definition pure_for (z : list (label * label)) (p t : label) : Prop :=
  In (t, p) z /\ forall t', In (t', p) z -> t' = t.

(** Lines with the same first label have the same second label. *)
Definition refines (w : list (label * label)) : Prop :=
  forall a b b', In (a, b) w -> In (a, b') w -> b = b'.

(** A renaming of labels that keeps distinct labels distinct. *)
Definition injective (f : label -> label) : Prop := forall x y, f x = f y -> x = y.

(** The same dictionary with every key renamed. *)
Definition rename_keys {V : Type} (f : label -> label) (d : dict V) : dict V :=
  map (fun kv => (f (fst kv), snd kv)) d.

(** The same dictionary with every value transformed. *)
Definition map_values {V W : Type} (h : V -> W) (d : dict V) : dict W :=
  map (fun kv => (fst kv, h (snd kv))) d.

(** Two lines with the same label in [xs] have the same label in [ys]: the
    partition of the lines by [xs] is finer than the partition by [ys]. *)
Definition finer (xs ys : list label) : Prop :=
  forall i j x y y',
    nth_error xs i = Some x -> nth_error xs j = Some x ->
    nth_error ys i = Some y -> nth_error ys j = Some y' -> y = y'.

(** The [other] labels of the lines whose [base] label is [b]; [w] is the
    list of (base, other) pairs. *)
Definition bucket (w : list (label * label)) (b : label) : list label :=
  map snd (filter (fun bo => String.eqb b (fst bo)) w).

(** No element of the list has a smaller key than the first. *)
Definition least_first (l : list string) : Prop :=
  match l with
  | [] => True
  | h :: _ => forall y, In y l -> key_ltb (sort_key y) (sort_key h) = false
  end.

(** * Properties *)

Ltac label_cases k k' := destruct (String.eqb_spec k k'); subst; try congruence.

(** ** Sums and lengths *)

Lemma sum_from (xs : list Z) (a : Z) : fold_left Z.add xs a = a + sum xs.
Proof.
  unfold sum. revert a.
  induction xs as [|x r IH]; intros a; simpl; [lia|].
  rewrite IH, (IH x). lia.
Qed.

Lemma sum_cons (x : Z) (xs : list Z) : sum (x :: xs) = x + sum xs.
Proof. unfold sum at 1. simpl. apply sum_from. Qed.

Lemma sum_app (xs ys : list Z) : sum (xs ++ ys) = sum xs + sum ys.
Proof.
  induction xs as [|x r IH]; simpl; [reflexivity|].
  rewrite !sum_cons, IH. lia.
Qed.

Lemma sum_nonneg (xs : list Z) : Forall (fun x => 0 <= x) xs -> 0 <= sum xs.
Proof.
  induction 1 as [|x r Hx _ IH]; [cbn; lia|]. rewrite sum_cons. lia.
Qed.

Lemma len_app {A : Type} (xs ys : list A) : len (xs ++ ys) = len xs + len ys.
Proof. unfold len. rewrite length_app. lia. Qed.

Lemma len_nonneg {A : Type} (xs : list A) : 0 <= len xs.
Proof. unfold len. lia. Qed.

(** ** Dictionaries *)

Section DictFacts.
Context {V : Type}.
Implicit Types (d : dict V) (k : label) (f : option V -> V).

Lemma get_upsert k k' f d :
  get (upsert k f d) k' = if String.eqb k' k then Some (f (get d k)) else get d k'.
Proof.
  induction d as [|[k0 v] r IH]; simpl.
  - destruct (String.eqb k' k); reflexivity.
  - label_cases k k0; simpl.
    + destruct (String.eqb k' k0); reflexivity.
    + rewrite IH. label_cases k' k0.
      label_cases k0 k; reflexivity.
Qed.

Lemma keys_upsert k f d :
  keys (upsert k f d) =
  if existsb (String.eqb k) (keys d) then keys d else keys d ++ [k].
Proof.
  unfold keys. induction d as [|[k0 v] r IH]; simpl; [reflexivity|].
  label_cases k k0; simpl; try reflexivity.
  rewrite IH.
  destruct (existsb _ _); reflexivity.
Qed.

Lemma existsb_eqb_In k (ks : list label) :
  existsb (String.eqb k) ks = true <-> In k ks.
Proof.
  rewrite existsb_exists. split.
  - intros (x & Hx & E). apply String.eqb_eq in E. now subst.
  - intros H. exists k. split; [assumption|apply String.eqb_refl].
Qed.

Lemma NoDup_keys_upsert k f d : NoDup (keys d) -> NoDup (keys (upsert k f d)).
Proof.
  intros H. rewrite keys_upsert.
  destruct (existsb (String.eqb k) (keys d)) eqn:E; [assumption|].
  apply NoDup_app; [assumption|repeat constructor; intros []|].
  intros x Hx [->|[]].
  apply existsb_eqb_In in Hx. congruence.
Qed.

Lemma get_In k v d : get d k = Some v -> In (k, v) d.
Proof.
  induction d as [|[k0 v0] r IH]; simpl; [discriminate|].
  label_cases k k0; intros H.
  - left. congruence.
  - right. auto.
Qed.

Lemma In_get k v d : NoDup (keys d) -> In (k, v) d -> get d k = Some v.
Proof.
  induction d as [|[k0 v0] r IH]; simpl; [intros _ []|].
  intros Hnd [E|Hin]; inversion Hnd as [|? ? Hk0 Hr]; subst.
  - inversion E; subst. now rewrite String.eqb_refl.
  - label_cases k k0.
    + exfalso. apply Hk0. change k0 with (fst (k0, v)). now apply in_map.
    + auto.
Qed.

Lemma dsum_upsert (F : V -> Z) k f d :
  dsum F (upsert k f d) =
  dsum F d + F (f (get d k)) - match get d k with Some v => F v | None => 0 end.
Proof.
  unfold dsum. induction d as [|[k0 v] r IH]; simpl.
  - rewrite sum_cons. cbn. lia.
  - label_cases k k0; simpl; rewrite !sum_cons; [lia|].
    rewrite IH. lia.
Qed.

(** An invariant of every entry survives an update that respects it. *)
Lemma Forall_upsert (P : label * V -> Prop) k f d :
  Forall P d ->
  (forall v, P (k, v) -> P (k, f (Some v))) ->
  P (k, f None) ->
  Forall P (upsert k f d).
Proof.
  intros H Hs Hn. induction H as [|[k0 v] r Hx Hr IH]; simpl.
  - repeat constructor. assumption.
  - label_cases k k0; constructor; auto.
Qed.
End DictFacts.

Lemma fold_left_snoc {A B : Type} (f : A -> B -> A) (l : list B) (x : B) (a : A) :
  fold_left f (l ++ [x]) a = f (fold_left f l a) x.
Proof. now rewrite fold_left_app. Qed.

Lemma combine_app_eq {A B : Type} (l1 l2 : list A) (l1' l2' : list B) :
  length l1 = length l1' ->
  combine (l1 ++ l2) (l1' ++ l2') = combine l1 l1' ++ combine l2 l2'.
Proof.
  revert l1'. induction l1 as [|x r IH]; intros [|y r'] H; simpl in *;
    try discriminate; [reflexivity|].
  f_equal. apply IH. lia.
Qed.

(** ** Agreeing pairs

    [agree_pairs eqv l] is the number of positions [i < j] of [l] whose
    elements are related by [eqv]: every element is counted against the
    elements before it. *)

Section Agreement.
Context {A : Type} (eqv : A -> A -> bool).

Lemma occ_app x l l' : occ eqv x (l ++ l') = occ eqv x l + occ eqv x l'.
Proof. unfold occ. now rewrite filter_app, len_app. Qed.

Lemma occ_snoc x l y : occ eqv x (l ++ [y]) = occ eqv x l + (if eqv x y then 1 else 0).
Proof. rewrite occ_app. unfold occ. simpl. now destruct (eqv x y). Qed.

Lemma occ_rev x l : occ eqv x (rev l) = occ eqv x l.
Proof. unfold occ, len. now rewrite filter_rev, length_rev. Qed.

Lemma occ_nonneg x l : 0 <= occ eqv x l.
Proof. apply len_nonneg. Qed.

Lemma agree_pairs_snoc l x : agree_pairs eqv (l ++ [x]) = agree_pairs eqv l + occ eqv x l.
Proof.
  unfold agree_pairs. rewrite rev_app_distr. simpl. rewrite occ_rev. lia.
Qed.

Lemma agree_pairs_nonneg l : 0 <= agree_pairs eqv l.
Proof.
  induction l as [|x l IH] using rev_ind; [cbn; lia|].
  rewrite agree_pairs_snoc. pose proof (occ_nonneg x l). lia.
Qed.
End Agreement.

(** Agreement is preserved by a map that preserves the relation, and can only
    grow when the relation is weakened. *)
Lemma occ_map {A B : Type} (eqa : A -> A -> bool) (eqb : B -> B -> bool)
    (f : A -> B) (x : A) (l : list A) :
  (forall y, eqb (f x) (f y) = eqa x y) ->
  occ eqb (f x) (map f l) = occ eqa x l.
Proof.
  intros H. induction l as [|y l IH] using rev_ind; [reflexivity|].
  rewrite map_app. simpl. rewrite !occ_snoc, IH, H. reflexivity.
Qed.

Lemma agree_pairs_map {A B : Type} (eqa : A -> A -> bool) (eqb : B -> B -> bool)
    (f : A -> B) (l : list A) :
  (forall x y, eqb (f x) (f y) = eqa x y) ->
  agree_pairs eqb (map f l) = agree_pairs eqa l.
Proof.
  intros H. induction l as [|x l IH] using rev_ind; [reflexivity|].
  rewrite map_app. simpl. rewrite !agree_pairs_snoc, IH.
  rewrite (occ_map eqa eqb) by auto. reflexivity.
Qed.

Lemma occ_map_le {A B : Type} (eqa : A -> A -> bool) (eqb : B -> B -> bool)
    (f : A -> B) (x : A) (l : list A) :
  (forall y, eqa x y = true -> eqb (f x) (f y) = true) ->
  occ eqa x l <= occ eqb (f x) (map f l).
Proof.
  intros H. induction l as [|y l IH] using rev_ind; [cbn; lia|].
  rewrite map_app. simpl. rewrite !occ_snoc.
  specialize (H y). destruct (eqa x y).
  - rewrite H by reflexivity. lia.
  - destruct (eqb (f x) (f y)); lia.
Qed.

Lemma agree_pairs_map_le {A B : Type} (eqa : A -> A -> bool) (eqb : B -> B -> bool)
    (f : A -> B) (l : list A) :
  (forall x y, eqa x y = true -> eqb (f x) (f y) = true) ->
  agree_pairs eqa l <= agree_pairs eqb (map f l).
Proof.
  intros H. induction l as [|x l IH] using rev_ind; [cbn; lia|].
  rewrite map_app. simpl. rewrite !agree_pairs_snoc.
  pose proof (occ_map_le eqa eqb f x l (H x)). lia.
Qed.

(** ** [Counter] *)

Lemma comb2_succ (n : Z) : 0 <= n -> comb2 (n + 1) = comb2 n + n.
Proof.
  intros H. unfold comb2.
  destruct (Z.ltb_spec (n + 1) 2), (Z.ltb_spec n 2); try lia.
  - assert (n = 1) as -> by lia. reflexivity.
  - replace ((n + 1) * (n + 1 - 1)) with (n * (n - 1) + n * 2) by lia.
    rewrite Z.div_add by lia. reflexivity.
Qed.

Lemma Counter_snoc (l : list label) (k : label) :
  Counter (l ++ [k]) = counter_incr k (Counter l).
Proof. unfold Counter. now rewrite fold_left_snoc. Qed.

Lemma get_Counter (l : list label) (k : label) :
  get (Counter l) k =
  if occ String.eqb k l =? 0 then None else Some (occ String.eqb k l).
Proof.
  induction l as [|x l IH] using rev_ind; [reflexivity|].
  rewrite Counter_snoc. unfold counter_incr. rewrite get_upsert, occ_snoc.
  pose proof (occ_nonneg String.eqb k l).
  label_cases k x.
  - rewrite IH. destruct (Z.eqb_spec (occ String.eqb x l) 0) as [E|E].
    + rewrite E. reflexivity.
    + destruct (Z.eqb_spec (occ String.eqb x l + 1) 0); [lia|reflexivity].
  - rewrite IH, Z.add_0_r. reflexivity.
Qed.

Lemma get_default_Counter (l : list label) (k : label) :
  get_default (Counter l) k 0 = occ String.eqb k l.
Proof.
  unfold get_default. rewrite get_Counter.
  destruct (Z.eqb_spec (occ String.eqb k l) 0); congruence.
Qed.

Lemma pairs_of_Counter (l : list label) :
  pairs_of (Counter l) = agree_pairs String.eqb l.
Proof.
  change (pairs_of (Counter l)) with (dsum comb2 (Counter l)).
  induction l as [|x l IH] using rev_ind; [reflexivity|].
  rewrite Counter_snoc, agree_pairs_snoc. unfold counter_incr.
  rewrite dsum_upsert, IH, get_Counter.
  pose proof (occ_nonneg String.eqb x l).
  destruct (Z.eqb_spec (occ String.eqb x l) 0) as [E|E].
  - rewrite E. cbn. lia.
  - rewrite comb2_succ by lia. lia.
Qed.

(** ** The predicted groups of [accuracy_metrics]

    [groups_of z] is [idx_by_pred] with every index replaced by the
    ground-truth label found there; [z] is the list of (truth, pred) pairs. *)

Lemma groups_of_snoc z t p :
  groups_of (z ++ [(t, p)]) = setdefault_append p t (groups_of z).
Proof. unfold groups_of. now rewrite fold_left_snoc. Qed.

Lemma group_snoc z t p' p :
  group (z ++ [(t, p')]) p = group z p ++ (if String.eqb p p' then [t] else []).
Proof.
  unfold group. rewrite filter_app, map_app. simpl.
  destruct (String.eqb p p'); reflexivity.
Qed.

Lemma get_groups_of z p :
  get (groups_of z) p = match group z p with [] => None | _ :: _ => Some (group z p) end.
Proof.
  induction z as [|[t p'] z IH] using rev_ind; [reflexivity|].
  rewrite groups_of_snoc, group_snoc. unfold setdefault_append.
  rewrite get_upsert. label_cases p p'.
  - rewrite IH. destruct (group z p'); reflexivity.
  - rewrite IH, app_nil_r. reflexivity.
Qed.

Lemma NoDup_keys_groups_of z : NoDup (keys (groups_of z)).
Proof.
  induction z as [|[t p] z IH] using rev_ind; [constructor|].
  rewrite groups_of_snoc. now apply NoDup_keys_upsert.
Qed.

Lemma In_groups_of z p g : In (p, g) (groups_of z) -> g = group z p /\ g <> [].
Proof.
  intros H. apply In_get in H; [|apply NoDup_keys_groups_of].
  rewrite get_groups_of in H. destruct (group z p); [discriminate|].
  inversion H. split; [reflexivity|discriminate].
Qed.

Lemma occ_group z t p : occ String.eqb t (group z p) = occ pair_eqb (t, p) z.
Proof.
  induction z as [|[t' p'] z IH] using rev_ind; [reflexivity|].
  rewrite group_snoc, occ_app, occ_snoc, IH. unfold pair_eqb. simpl.
  label_cases p p'.
  - unfold occ. simpl. destruct (String.eqb t t'); reflexivity.
  - rewrite andb_false_r. reflexivity.
Qed.

Lemma accurate_pairs_groups z :
  dsum (fun g => pairs_of (Counter g)) (groups_of z) = agree_pairs pair_eqb z.
Proof.
  induction z as [|[t p] z IH] using rev_ind; [reflexivity|].
  rewrite groups_of_snoc, agree_pairs_snoc. unfold setdefault_append.
  rewrite dsum_upsert, IH, get_groups_of, <- occ_group.
  destruct (group z p) as [|t0 g]; [cbn; lia|].
  rewrite !pairs_of_Counter, agree_pairs_snoc. lia.
Qed.

Lemma len_groups z : dsum len (groups_of z) = len z.
Proof.
  induction z as [|[t p] z IH] using rev_ind; [reflexivity|].
  rewrite groups_of_snoc, len_app. unfold setdefault_append.
  rewrite dsum_upsert, IH. destruct (get (groups_of z) p).
  - rewrite len_app. cbn. lia.
  - cbn. lia.
Qed.

(** ** From indices to ground-truth labels *)

Lemma enumerate_snoc {A : Type} (l : list A) (x : A) :
  enumerate (l ++ [x]) = enumerate l ++ [(length l, x)].
Proof.
  unfold enumerate. rewrite length_app, Nat.add_1_r, seq_S. simpl.
  apply (combine_app_eq _ [length l] _ [x]). apply length_seq.
Qed.

Lemma idx_by_pred_snoc pred p :
  idx_by_pred (pred ++ [p]) = setdefault_append p (length pred) (idx_by_pred pred).
Proof. unfold idx_by_pred. now rewrite enumerate_snoc, fold_left_snoc. Qed.

Lemma zip_snoc_r {A B : Type} (xs : list A) (ys : list B) (x : A) (y : B) :
  nth_error xs (length ys) = Some x ->
  zip xs (ys ++ [y]) = zip xs ys ++ [(x, y)].
Proof.
  unfold zip. revert ys. induction xs as [|a r IH]; intros [|b ys] H; simpl in *;
    try discriminate.
  - inversion H. now destruct r.
  - f_equal. now apply IH.
Qed.

Lemma map_result_snoc {A B : Type} (f : A -> result B) l x ys y :
  map_result f l = Ok ys -> f x = Ok y -> map_result f (l ++ [x]) = Ok (ys ++ [y]).
Proof.
  revert ys. induction l as [|a l IH]; simpl; intros ys H Hx.
  - inversion H. now rewrite Hx.
  - destruct (f a); simpl in *; [|discriminate].
    destruct (map_result f l) as [zs|]; simpl in *; [|discriminate].
    inversion H. now rewrite (IH zs eq_refl Hx).
Qed.

Lemma map_result_length {A B : Type} (f : A -> result B) l ys :
  map_result f l = Ok ys -> length ys = length l.
Proof.
  revert ys. induction l as [|a l IH]; simpl; intros ys H.
  - now inversion H.
  - destruct (f a); simpl in *; [|discriminate].
    destruct (map_result f l) as [zs|]; simpl in *; [|discriminate].
    inversion H. simpl. now rewrite (IH zs eq_refl).
Qed.

Lemma map_result_In {A B : Type} (f : A -> result B) l ys x :
  map_result f l = Ok ys -> In x l -> exists y, f x = Ok y.
Proof.
  revert ys. induction l as [|a l IH]; simpl; intros ys H Hin; [destruct Hin|].
  destruct (f a) eqn:E; simpl in H; [|discriminate].
  destruct (map_result f l) as [zs|] eqn:E'; simpl in H; [|discriminate].
  destruct Hin as [->|Hin]; [eauto|]. now apply (IH zs).
Qed.

Lemma entrywise_upsert {V W : Type} (R : V -> W -> Prop) k f g d e :
  entrywise R d e ->
  (forall v w, R v w -> R (f (Some v)) (g (Some w))) ->
  R (f None) (g None) ->
  entrywise R (upsert k f d) (upsert k g e).
Proof.
  intros H Hs Hn. induction H as [|[k1 v] [k2 w] d e [Hk Hv] H IH]; simpl in *.
  - repeat constructor; assumption.
  - subst k2. label_cases k k1; constructor; simpl; auto.
Qed.

Lemma idx_groups truth pred :
  (length pred <= length truth)%nat ->
  entrywise (resolves truth) (idx_by_pred pred) (groups_of (zip truth pred)).
Proof.
  induction pred as [|p pred IH] using rev_ind; intros Hlen.
  - unfold zip. rewrite combine_nil. constructor.
  - rewrite length_app in Hlen. simpl in Hlen.
    destruct (nth_error truth (length pred)) as [t|] eqn:Ht;
      [|apply nth_error_None in Ht; lia].
    rewrite (zip_snoc_r _ _ t) by assumption.
    rewrite idx_by_pred_snoc, groups_of_snoc.
    apply entrywise_upsert; [apply IH; lia| |].
    + intros idxs gts H. apply map_result_snoc; [assumption|].
      unfold getitem. now rewrite Ht.
    + unfold resolves, getitem. simpl. now rewrite Ht.
Qed.

Lemma group_body_resolved truth tc ap ae p idxs gts :
  resolves truth idxs gts ->
  group_body truth tc (ap, ae) (p, idxs) =
  Ok (ap + pairs_of (Counter gts), ae + events_of tc gts).
Proof.
  intros H. unfold group_body, events_of. rewrite H. simpl.
  assert (len idxs = len gts) as ->.
  { unfold len. now rewrite (map_result_length _ _ _ H). }
  destruct (len (Counter gts) =? 1); [|now rewrite Z.add_0_r].
  destruct (keys (Counter gts)); [now rewrite Z.add_0_r|].
  destruct (len gts =? _); [reflexivity|now rewrite Z.add_0_r].
Qed.

Lemma for_each_groups truth tc d e ap ae :
  entrywise (resolves truth) d e ->
  for_each (group_body truth tc) d (ap, ae) =
  Ok (ap + dsum (fun g => pairs_of (Counter g)) e, ae + dsum (events_of tc) e).
Proof.
  intros H. revert ap ae.
  induction H as [|[p idxs] [p' gts] d e [_ Hv] _ IH]; intros ap ae;
    cbn [for_each].
  - cbn. now rewrite !Z.add_0_r.
  - cbn [snd] in Hv. rewrite (group_body_resolved _ _ _ _ _ _ _ Hv).
    cbn [bind]. rewrite IH.
    unfold dsum, values. cbn [map snd]. rewrite !sum_cons. do 2 f_equal; lia.
Qed.

(** [accuracy_metrics] in closed form, whenever no index falls outside
    [truth]. *)
Lemma accuracy_metrics_scores truth pred :
  (length pred <= length truth)%nat ->
  accuracy_metrics truth pred =
  Ok (scores (agree_pairs pair_eqb (zip truth pred))
             (dsum (events_of (Counter truth)) (groups_of (zip truth pred)))
             (agree_pairs String.eqb pred)
             (agree_pairs String.eqb truth)
             (len truth)).
Proof.
  intros Hlen. unfold accuracy_metrics, items.
  rewrite (for_each_groups _ _ _ _ 0 0 (idx_groups truth pred Hlen)).
  simpl. rewrite accurate_pairs_groups, !pairs_of_Counter. reflexivity.
Qed.

(** ** Rational arithmetic of the scores *)

Lemma in_unit_0 : in_unit 0.
Proof. split; [apply Qle_refl|discriminate]. Qed.

Lemma true_div_unit (a b : Z) : 0 <= a <= b -> 0 < b -> in_unit (true_div a b).
Proof.
  intros [Ha Hab] Hb. unfold true_div.
  assert (0 < inject_Z b)%Q as Hb' by (unfold Qlt; simpl; lia).
  split.
  - apply Qle_shift_div_l; [assumption|]. rewrite Qmult_0_l.
    unfold Qle; simpl; lia.
  - apply Qle_shift_div_r; [assumption|]. rewrite Qmult_1_l.
    unfold Qle; simpl; lia.
Qed.

Lemma true_div_self (n : Z) : n <> 0 -> (true_div n n == 1)%Q.
Proof.
  intros H. unfold true_div. apply Qmult_inv_r.
  intros E. apply H. unfold Qeq in E. simpl in E. lia.
Qed.

Lemma guarded_div_unit (a b : Z) :
  0 <= a <= b -> in_unit (if b =? 0 then 0%Q else true_div a b).
Proof.
  intros H. destruct (Z.eqb_spec b 0); [apply in_unit_0|].
  apply true_div_unit; lia.
Qed.

Lemma is_zero_spec (q : Q) : is_zero q = true <-> (q == 0)%Q.
Proof. apply Qeq_bool_iff. Qed.

Lemma f1_unit (p r : Q) : in_unit p -> in_unit r -> in_unit (f1_of p r).
Proof.
  intros [Hp0 Hp1] [Hr0 Hr1]. unfold f1_of.
  destruct (is_zero p && is_zero r) eqn:E; [apply in_unit_0|].
  assert (0 < p + r)%Q as Hpos.
  { apply andb_false_iff in E.
    destruct E as [E|E]; apply not_true_iff_false in E;
      rewrite is_zero_spec in E; lra. }
  split.
  - apply Qle_shift_div_l; [assumption|]. nra.
  - apply Qle_shift_div_r; [assumption|]. nra.
Qed.

Lemma f1_ones (p r : Q) : (p == 1)%Q -> (r == 1)%Q -> (f1_of p r == 1)%Q.
Proof.
  intros Hp Hr. unfold f1_of.
  destruct (is_zero p && is_zero r) eqn:E.
  - apply andb_true_iff in E. destruct E as [E _].
    apply is_zero_spec in E. rewrite Hp in E. discriminate.
  - rewrite Hp, Hr. reflexivity.
Qed.

Lemma scores_GA ap ae pp rp n :
  GA (scores ap ae pp rp n) =
  f1_of (GA_precision (scores ap ae pp rp n)) (GA_recall (scores ap ae pp rp n)).
Proof. reflexivity. Qed.

Lemma scores_unit ap ae pp rp n :
  0 <= ap <= pp -> ap <= rp -> 0 <= ae <= n ->
  let m := scores ap ae pp rp n in
  in_unit (GA m) /\ in_unit (GA_precision m) /\ in_unit (GA_recall m) /\ in_unit (PA m).
Proof.
  intros Hp Hr He m.
  assert (in_unit (GA_precision m)) as H1 by (apply guarded_div_unit; lia).
  assert (in_unit (GA_recall m)) as H2 by (apply guarded_div_unit; lia).
  repeat split; try apply H1; try apply H2;
    try (apply (guarded_div_unit ae n); lia);
    unfold m; rewrite scores_GA; apply f1_unit; assumption.
Qed.

(** ** The cross table of [purity_metric] *)

Lemma dsum_le {V : Type} (F G : V -> Z) (d : dict V) :
  Forall (fun kv => F (snd kv) <= G (snd kv)) d -> dsum F d <= dsum G d.
Proof.
  unfold dsum, values. induction 1 as [|kv d H _ IH]; [cbn; lia|].
  cbn [map]. rewrite !sum_cons. lia.
Qed.

Lemma dsum_ext {V : Type} (F G : V -> Z) (d : dict V) :
  Forall (fun kv => F (snd kv) = G (snd kv)) d -> dsum F d = dsum G d.
Proof.
  unfold dsum, values. induction 1 as [|kv d H _ IH]; [reflexivity|].
  cbn [map]. rewrite !sum_cons. lia.
Qed.

Lemma dsum_nonneg {V : Type} (F : V -> Z) (d : dict V) :
  Forall (fun kv => 0 <= F (snd kv)) d -> 0 <= dsum F d.
Proof.
  intros H. apply sum_nonneg. unfold values. rewrite map_map.
  now apply Forall_map.
Qed.

Lemma fold_max_bounds (xs : list Z) (x : Z) :
  Forall (fun n => 0 <= n) xs -> 0 <= x ->
  x <= fold_left Z.max xs x <= x + sum xs.
Proof.
  intros H. revert x. induction H as [|y xs Hy _ IH]; intros x Hx; simpl.
  - cbn. lia.
  - rewrite sum_cons. specialize (IH (Z.max x y)). lia.
Qed.

Lemma max_or_0_bounds (xs : list Z) :
  Forall (fun n => 0 <= n) xs -> 0 <= max_or_0 xs <= sum xs.
Proof.
  intros H. destruct H as [|x xs Hx H]; [cbn; lia|].
  simpl. rewrite sum_cons. pose proof (fold_max_bounds xs x H Hx). lia.
Qed.

Lemma purity_sums_dsum (tbl : dict (dict Z)) :
  purity_sums tbl =
  (dsum (fun c => max_or_0 (values c)) tbl, dsum (fun c => sum (values c)) tbl).
Proof.
  unfold purity_sums, dsum.
  enough (forall vs a b,
    fold_left (fun '(top_sum, total_sum) (counts : dict Z) =>
                 (top_sum + max_or_0 (values counts),
                  total_sum + sum (values counts))) vs (a, b) =
    (a + sum (map (fun c => max_or_0 (values c)) vs),
     b + sum (map (fun c => sum (values c)) vs))) as H by apply H.
  induction vs as [|c vs IH]; intros a b; simpl.
  - cbn. now rewrite !Z.add_0_r.
  - rewrite IH, !sum_cons. f_equal; lia.
Qed.

Lemma table_of_snoc z b o :
  table_of (z ++ [(b, o)]) =
  upsert b (fun oc => counter_incr o (match oc with Some c => c | None => [] end))
    (table_of z).
Proof. unfold table_of. now rewrite fold_left_snoc. Qed.

Lemma sum_values_incr (o : label) (c : dict Z) :
  sum (values (counter_incr o c)) = sum (values c) + 1.
Proof.
  rewrite <- (map_id (values (counter_incr o c))), <- (map_id (values c)).
  change (dsum (fun n => n) (counter_incr o c) = dsum (fun n => n) c + 1).
  unfold counter_incr. rewrite dsum_upsert. destruct (get c o); lia.
Qed.

Lemma values_incr_pos (o : label) (c : dict Z) :
  Forall (fun n => 1 <= n) (values c) -> Forall (fun n => 1 <= n) (values (counter_incr o c)).
Proof.
  intros H. unfold values in *. rewrite Forall_map in *.
  apply Forall_upsert; simpl; [assumption|intros; lia|lia].
Qed.

Lemma total_table z : dsum (fun c => sum (values c)) (table_of z) = len z.
Proof.
  induction z as [|[b o] z IH] using rev_ind; [reflexivity|].
  rewrite table_of_snoc, dsum_upsert, IH, len_app, sum_values_incr.
  destruct (get (table_of z) b); cbn; lia.
Qed.

Lemma table_values_pos z :
  Forall (fun kv => Forall (fun n => 1 <= n) (values (snd kv))) (table_of z).
Proof.
  induction z as [|[b o] z IH] using rev_ind; [constructor|].
  rewrite table_of_snoc. apply Forall_upsert; cbn [snd]; [assumption| |].
  - intros c. apply values_incr_pos.
  - apply values_incr_pos. constructor.
Qed.

Lemma purity_sums_bounds z :
  let '(top_sum, total_sum) := purity_sums (table_of z) in
  0 <= top_sum <= total_sum /\ total_sum = len z.
Proof.
  rewrite purity_sums_dsum, total_table.
  assert (Forall (fun kv : label * dict Z =>
                    0 <= max_or_0 (values (snd kv)) <= sum (values (snd kv)))
                 (table_of z)) as H.
  { eapply Forall_impl; [|apply table_values_pos]. intros kv Hkv.
    apply max_or_0_bounds. eapply Forall_impl; [|exact Hkv]. simpl. lia. }
  rewrite <- (total_table z). repeat split.
  - apply dsum_nonneg. eapply Forall_impl; [|exact H]. simpl. lia.
  - apply dsum_le. eapply Forall_impl; [|exact H]. simpl. lia.
Qed.

Lemma purity_metric_unit (base_ids other_ids : list label) :
  in_unit (purity_metric base_ids other_ids).
Proof.
  unfold purity_metric. change (base_to_other base_ids other_ids)
    with (table_of (zip base_ids other_ids)).
  pose proof (purity_sums_bounds (zip base_ids other_ids)) as H.
  destruct (purity_sums _) as [top_sum total_sum]. destruct H as [H _].
  apply guarded_div_unit. assumption.
Qed.

(** Comparing a labelling with itself: every row of the table has one column. *)
Lemma table_diag (a : list label) :
  Forall (fun kv => exists n, snd kv = [(fst kv, n)]) (table_of (zip a a)).
Proof.
  induction a as [|x a IH] using rev_ind; [constructor|].
  rewrite (zip_snoc_r _ _ x) by (rewrite nth_error_app2, Nat.sub_diag; [reflexivity|lia]).
  replace (zip (a ++ [x]) a) with (zip a a).
  2:{ unfold zip. rewrite <- (app_nil_r a) at 4.
      rewrite combine_app_eq by reflexivity. simpl. now rewrite app_nil_r. }
  rewrite table_of_snoc. apply Forall_upsert; simpl; [assumption| |].
  - intros c [n ->]. exists (n + 1). unfold counter_incr. simpl.
    now rewrite String.eqb_refl.
  - exists 1. reflexivity.
Qed.

Lemma purity_sums_diag (a : list label) :
  purity_sums (table_of (zip a a)) = (len a, len a).
Proof.
  rewrite purity_sums_dsum.
  assert (len (zip a a) = len a) as E.
  { unfold len, zip. rewrite length_combine. f_equal. lia. }
  rewrite <- E, <- total_table. f_equal.
  apply dsum_ext. eapply Forall_impl; [|apply table_diag].
  intros [b c] [n Hn]. simpl in *. subst c. reflexivity.
Qed.

(** ** The relabelling of [collapse_pure_clusters] *)

Lemma collapse_body_spec gbp mapping pure_mask p :
  collapse_body gbp (mapping, pure_mask) p =
  (upsert p (fun _ => relabel gbp p) mapping, pure_mask ++ [is_pure gbp p]).
Proof.
  unfold collapse_body, relabel, is_pure.
  destruct (get_default gbp p []) as [|t [|t' g]]; try reflexivity.
  unfold len. simpl length.
  destruct (Z.eqb_spec (Z.of_nat (S (S (length g)))) 1); [lia|reflexivity].
Qed.

Lemma collapse_loop gbp pred :
  exists mapping,
    fold_left (collapse_body gbp) pred ([], []) = (mapping, map (is_pure gbp) pred) /\
    forall p, In p pred -> get mapping p = Some (relabel gbp p).
Proof.
  induction pred as [|q pred IH] using rev_ind.
  - exists []. split; [reflexivity|intros p []].
  - destruct IH as (mapping & Hfold & Hget).
    exists (upsert q (fun _ => relabel gbp q) mapping).
    rewrite fold_left_snoc, Hfold, collapse_body_spec, map_app. split; [reflexivity|].
    intros p Hp. rewrite get_upsert. label_cases p q.
    apply in_app_or in Hp. destruct Hp as [Hp|[Hp|[]]]; [auto|congruence].
Qed.

Lemma map_result_subscript {V : Type} (mapping : dict V) (r : label -> V) ps :
  (forall p, In p ps -> get mapping p = Some (r p)) ->
  map_result (subscript mapping) ps = Ok (map r ps).
Proof.
  induction ps as [|p ps IH]; intros H; simpl; [reflexivity|].
  unfold subscript at 1. rewrite (H p) by now left. simpl.
  rewrite IH by (intros; apply H; now right). reflexivity.
Qed.

(** [collapse_pure_clusters] never raises and applies one function of the
    predicted label to every line. *)
Lemma collapse_pure_clusters_map truth pred :
  let gbp := gt_by_pred truth pred in
  collapse_pure_clusters truth pred =
  Ok (map (relabel gbp) pred,
      if len pred =? 0 then 0%Q
      else true_div (sum_mask (map (is_pure gbp) pred)) (len pred)).
Proof.
  intros gbp. unfold collapse_pure_clusters. fold gbp.
  destruct (collapse_loop gbp pred) as (mapping & -> & Hget).
  rewrite (map_result_subscript mapping (relabel gbp)) by assumption.
  reflexivity.
Qed.

Lemma sum_mask_bounds (m : list bool) : 0 <= sum_mask m <= len m.
Proof.
  unfold sum_mask. induction m as [|b m IH]; [cbn; lia|].
  cbn [map]. rewrite sum_cons. unfold len in *. simpl length.
  destruct b; lia.
Qed.

Lemma pure_coverage_unit gbp (pred : list label) :
  in_unit (if len pred =? 0 then 0%Q
           else true_div (sum_mask (map (is_pure gbp) pred)) (len pred)).
Proof.
  apply guarded_div_unit.
  pose proof (sum_mask_bounds (map (is_pure gbp) pred)) as H.
  unfold len in *. rewrite length_map in H. exact H.
Qed.

(** ** Events, and a labelling compared with itself *)

Lemma events_of_bounds tc g : 0 <= events_of tc g <= len g.
Proof.
  unfold events_of. pose proof (len_nonneg g).
  destruct (len (Counter g) =? 1); [|lia].
  destruct (keys (Counter g)); [lia|].
  destruct (len g =? _); lia.
Qed.

Lemma events_groups_bounds tc z : 0 <= dsum (events_of tc) (groups_of z) <= len z.
Proof.
  rewrite <- (len_groups z). split.
  - apply dsum_nonneg. apply Forall_forall. intros kv _. apply events_of_bounds.
  - apply dsum_le. apply Forall_forall. intros kv _. apply events_of_bounds.
Qed.

Lemma map_fst_zip {A B : Type} (xs : list A) (ys : list B) :
  (length xs <= length ys)%nat -> map fst (zip xs ys) = xs.
Proof.
  unfold zip. revert ys. induction xs as [|x xs IH]; intros [|y ys] H; simpl in *;
    try reflexivity; try lia.
  f_equal. apply IH. lia.
Qed.

Lemma map_snd_zip {A B : Type} (xs : list A) (ys : list B) :
  (length ys <= length xs)%nat -> map snd (zip xs ys) = ys.
Proof.
  unfold zip. revert ys. induction xs as [|x xs IH]; intros [|y ys] H; simpl in *;
    try reflexivity; try lia.
  f_equal. apply IH. lia.
Qed.

Lemma zip_swap {A B : Type} (xs : list A) (ys : list B) :
  zip ys xs = map (fun ab => (snd ab, fst ab)) (zip xs ys).
Proof.
  unfold zip. revert ys. induction xs as [|x xs IH]; intros [|y ys]; simpl;
    try reflexivity.
  now rewrite IH.
Qed.

Lemma zip_diag {A : Type} (xs : list A) : zip xs xs = map (fun x => (x, x)) xs.
Proof. unfold zip. induction xs as [|x xs IH]; simpl; [reflexivity|now rewrite IH]. Qed.

Lemma accurate_pairs_le_parsed truth pred :
  (length pred <= length truth)%nat ->
  agree_pairs pair_eqb (zip truth pred) <= agree_pairs String.eqb pred.
Proof.
  intros H. rewrite <- (map_snd_zip truth pred H) at 2.
  apply agree_pairs_map_le. intros x y E.
  apply andb_true_iff in E. apply E.
Qed.

Lemma accurate_pairs_le_real truth pred :
  (length truth <= length pred)%nat ->
  agree_pairs pair_eqb (zip truth pred) <= agree_pairs String.eqb truth.
Proof.
  intros H. rewrite <- (map_fst_zip truth pred H) at 2.
  apply agree_pairs_map_le. intros x y E.
  apply andb_true_iff in E. apply E.
Qed.

Lemma accurate_pairs_swap (a b : list label) :
  agree_pairs pair_eqb (zip b a) = agree_pairs pair_eqb (zip a b).
Proof.
  rewrite (zip_swap a b). apply agree_pairs_map.
  intros x y. unfold pair_eqb. simpl. apply andb_comm.
Qed.

Lemma accurate_pairs_diag (x : list label) :
  agree_pairs pair_eqb (zip x x) = agree_pairs String.eqb x.
Proof.
  rewrite zip_diag. apply agree_pairs_map.
  intros a b. unfold pair_eqb. simpl. apply andb_diag.
Qed.

Lemma occ_zero_iff (a : label) (l : list label) :
  occ String.eqb a l = 0 <-> ~ In a l.
Proof.
  unfold occ, len. induction l as [|b l IH]; simpl; [tauto|].
  label_cases a b; simpl.
  - split; [lia|intros H; exfalso; apply H; now left].
  - rewrite IH. split; [intros H [E|Hin]; [congruence|auto]|tauto].
Qed.

Lemma pairs_back_zero_iff (l : list label) :
  pairs_back String.eqb l = 0 <-> NoDup l.
Proof.
  induction l as [|a l IH]; simpl.
  - split; [constructor|reflexivity].
  - pose proof (occ_nonneg String.eqb a l).
    assert (0 <= pairs_back String.eqb l) as Hge.
    { rewrite <- (rev_involutive l). apply (agree_pairs_nonneg String.eqb (rev l)). }
    split.
    + intros E. constructor; [apply occ_zero_iff|apply IH]; lia.
    + intros Hnd. inversion Hnd as [|? ? Ha Hl]; subst.
      apply occ_zero_iff in Ha. apply IH in Hl. lia.
Qed.

(** No two lines share a label exactly when no pair agrees. *)
Lemma agree_pairs_zero_iff (l : list label) :
  agree_pairs String.eqb l = 0 <-> NoDup l.
Proof.
  unfold agree_pairs. rewrite pairs_back_zero_iff. split; intros H.
  - rewrite <- (rev_involutive l). now apply NoDup_rev.
  - now apply NoDup_rev.
Qed.

Lemma group_diag (x : list label) (p : label) :
  group (zip x x) p = filter (String.eqb p) x.
Proof.
  rewrite zip_diag. unfold group.
  induction x as [|a x IH]; simpl; [reflexivity|].
  destruct (String.eqb p a); simpl; now rewrite IH.
Qed.

Lemma Counter_const (p : label) (g : list label) :
  g <> [] -> Forall (eq p) g -> Counter g = [(p, len g)].
Proof.
  induction g as [|a g IH] using rev_ind; [congruence|].
  intros _ H. apply Forall_app in H. destruct H as [Hg Ha].
  inversion Ha; subst. rewrite Counter_snoc.
  destruct g as [|b g]; [reflexivity|].
  rewrite IH by (assumption || discriminate).
  rewrite len_app. unfold counter_incr. cbn [upsert].
  rewrite String.eqb_refl. reflexivity.
Qed.

Lemma events_diag (x : list label) :
  dsum (events_of (Counter x)) (groups_of (zip x x)) = len x.
Proof.
  assert (len (zip x x) = len x) as E.
  { rewrite zip_diag. unfold len. now rewrite length_map. }
  rewrite <- E, <- len_groups. apply dsum_ext. apply Forall_forall.
  intros [p g] Hin. apply In_groups_of in Hin. destruct Hin as [Hg Hne].
  simpl. rewrite group_diag in Hg. unfold events_of.
  rewrite (Counter_const p g Hne).
  2:{ subst g. apply Forall_forall. intros a Ha. apply filter_In in Ha.
      destruct Ha as [_ Ha]. now apply String.eqb_eq in Ha. }
  simpl. rewrite get_default_Counter. fold (occ String.eqb p x) in Hg.
  replace (occ String.eqb p x) with (len g) by (subst g; reflexivity).
  now rewrite Z.eqb_refl.
Qed.

(** ** When [accuracy_metrics] raises *)

Lemma map_result_getitem_raise (truth : list label) idxs e :
  map_result (getitem truth) idxs = Raise e -> e = IndexError.
Proof.
  induction idxs as [|i idxs IH]; simpl; [discriminate|].
  unfold getitem at 1. destruct (nth_error truth i); simpl.
  - destruct (map_result _ idxs); simpl; [discriminate|].
    intros H. inversion H; subst. now apply IH.
  - intros H. now inversion H.
Qed.

Lemma group_body_cases truth tc st item :
  (exists gts st', resolves truth (snd item) gts /\ group_body truth tc st item = Ok st')
  \/ group_body truth tc st item = Raise IndexError.
Proof.
  destruct st as [ap ae], item as [p idxs]. cbn [snd].
  destruct (map_result (getitem truth) idxs) as [gts|e] eqn:E.
  - left. exists gts. eexists. split; [exact E|].
    apply group_body_resolved. exact E.
  - right. pose proof (map_result_getitem_raise _ _ _ E). subst e.
    unfold group_body. rewrite E. reflexivity.
Qed.

Lemma for_each_group_body_cases truth tc d st :
  (exists st', for_each (group_body truth tc) d st = Ok st' /\
               Forall (fun item => exists gts, resolves truth (snd item) gts) d)
  \/ for_each (group_body truth tc) d st = Raise IndexError.
Proof.
  revert st. induction d as [|item d IH]; intros st; cbn [for_each].
  - left. eauto.
  - destruct (group_body_cases truth tc st item) as [(gts & st1 & Hr & ->)| ->];
      cbn [bind]; [|now right].
    destruct (IH st1) as [(st' & -> & Hall)| ->]; [left|now right].
    exists st'. split; [reflexivity|]. constructor; eauto.
Qed.

Lemma covers_setdefault_append_new {A : Type} k (x : A) d :
  covers (setdefault_append k x d) x.
Proof.
  unfold covers, setdefault_append.
  induction d as [|[k0 v] d IH]; simpl.
  - constructor. simpl. now left.
  - label_cases k k0.
    + constructor. simpl. apply in_or_app. right. now left.
    + now apply Exists_cons_tl.
Qed.

Lemma covers_setdefault_append_old {A : Type} k (x y : A) d :
  covers d y -> covers (setdefault_append k x d) y.
Proof.
  unfold covers, setdefault_append.
  induction 1 as [[k0 v] d H|[k0 v] d H IH]; simpl in *.
  - label_cases k k0; constructor; simpl; [apply in_or_app|]; auto.
  - label_cases k k0; apply Exists_cons_tl; assumption.
Qed.

Lemma idx_by_pred_covers pred i : (i < length pred)%nat -> covers (idx_by_pred pred) i.
Proof.
  induction pred as [|p pred IH] using rev_ind; simpl; [lia|].
  rewrite length_app, idx_by_pred_snoc. simpl. intros H.
  destruct (Nat.eq_dec i (length pred)) as [->|Hne].
  - apply covers_setdefault_append_new.
  - apply covers_setdefault_append_old. apply IH. lia.
Qed.

Lemma accuracy_metrics_raises truth pred :
  (length truth < length pred)%nat -> accuracy_metrics truth pred = Raise IndexError.
Proof.
  intros Hlen. unfold accuracy_metrics, items.
  destruct (for_each_group_body_cases truth (Counter truth) (idx_by_pred pred) (0, 0))
    as [(st' & _ & Hall)| ->]; [exfalso|reflexivity].
  pose proof (idx_by_pred_covers pred (length truth) Hlen) as Hc.
  apply Exists_exists in Hc. destruct Hc as (item & Hin & Hi).
  rewrite Forall_forall in Hall. destruct (Hall item Hin) as (gts & Hr).
  destruct (map_result_In _ _ _ _ Hr Hi) as (y & Hy).
  unfold getitem in Hy.
  destruct (nth_error truth (length truth)) eqn:E; [|discriminate].
  assert (nth_error truth (length truth) = None) by (apply nth_error_None; lia).
  congruence.
Qed.

(** ** Sequences of different lengths *)

Lemma zip_firstn {A B : Type} (xs : list A) (ys : list B) :
  let n := Nat.min (length xs) (length ys) in
  zip (firstn n xs) (firstn n ys) = zip xs ys.
Proof.
  intros n. unfold zip. rewrite <- combine_firstn.
  apply firstn_all2. rewrite length_combine. reflexivity.
Qed.

Lemma purity_metric_prefix (base_ids other_ids : list label) :
  let n := Nat.min (length base_ids) (length other_ids) in
  purity_metric base_ids other_ids =
  purity_metric (firstn n base_ids) (firstn n other_ids).
Proof.
  intros n. subst n. unfold purity_metric, base_to_other.
  now rewrite (zip_firstn base_ids other_ids).
Qed.

Lemma accuracy_counts_bounds truth pred :
  length truth = length pred ->
  let accurate_pairs := agree_pairs pair_eqb (zip truth pred) in
  let accurate_events := dsum (events_of (Counter truth)) (groups_of (zip truth pred)) in
  0 <= accurate_pairs <= agree_pairs String.eqb pred /\
  accurate_pairs <= agree_pairs String.eqb truth /\
  0 <= accurate_events <= len truth.
Proof.
  intros Hlen. cbv zeta. split; [split|split].
  - apply agree_pairs_nonneg.
  - apply accurate_pairs_le_parsed. lia.
  - apply accurate_pairs_le_real. lia.
  - pose proof (events_groups_bounds (Counter truth) (zip truth pred)) as H.
    replace (len (zip truth pred)) with (len truth) in H; [exact H|].
    unfold len, zip. rewrite length_combine. lia.
Qed.

Lemma accuracy_metrics_unit truth pred :
  length truth = length pred ->
  exists m, accuracy_metrics truth pred = Ok m /\
    in_unit (GA m) /\ in_unit (GA_precision m) /\ in_unit (GA_recall m) /\
    in_unit (PA m).
Proof.
  intros Hlen. eexists. split; [apply accuracy_metrics_scores; lia|].
  destruct (accuracy_counts_bounds truth pred Hlen) as (H1 & H2 & H3).
  now apply scores_unit.
Qed.

(** ** Lines in exactly reconstructed clusters

    [accurate_events] is the number of lines whose predicted group
    reconstructs a ground-truth cluster exactly. *)

Lemma events_of_exactb tc g : events_of tc g = if exactb tc g then len g else 0.
Proof.
  unfold events_of, exactb. destruct (len (Counter g) =? 1); simpl; [|reflexivity].
  destruct (keys (Counter g)); reflexivity.
Qed.

Lemma In_keys_Counter g x : In x g -> In x (keys (Counter g)).
Proof.
  intros H. destruct (get (Counter g) x) as [n|] eqn:E.
  - apply get_In in E. change x with (fst (x, n)). now apply in_map.
  - rewrite get_Counter in E.
    destruct (Z.eqb_spec (occ String.eqb x g) 0) as [E0|]; [|discriminate].
    apply occ_zero_iff in E0. contradiction.
Qed.

Lemma exactb_spec tc g :
  exactb tc g = true <->
  exists t, g <> [] /\ Forall (eq t) g /\ len g = get_default tc t 0.
Proof.
  split.
  - unfold exactb. intros H. apply andb_true_iff in H. destruct H as [H1 H2].
    destruct (Counter g) as [|[t n] c] eqn:E; [discriminate H1|].
    destruct c as [|kv c].
    + exists t. split; [|split].
      * intros ->. discriminate E.
      * apply Forall_forall. intros x Hx. apply In_keys_Counter in Hx.
        rewrite E in Hx. simpl in Hx. destruct Hx as [|[]]. assumption.
      * simpl in H2. now apply Z.eqb_eq.
    + apply Z.eqb_eq in H1. unfold len in H1. simpl in H1. lia.
  - intros (t & Hne & Hall & Hlen). unfold exactb.
    rewrite (Counter_const t g Hne Hall). simpl. now apply Z.eqb_eq.
Qed.

Lemma ksum_upsert {V : Type} (F : label -> V -> Z) k f (d : dict V) :
  ksum F (upsert k f d) =
  ksum F d + F k (f (get d k)) - match get d k with Some v => F k v | None => 0 end.
Proof.
  unfold ksum. induction d as [|[k0 v] r IH]; simpl.
  - rewrite sum_cons. cbn. lia.
  - label_cases k k0; simpl; rewrite !sum_cons; simpl; [lia|].
    rewrite IH. lia.
Qed.

Lemma ksum_ext {V : Type} (F G : label -> V -> Z) (d : dict V) :
  Forall (fun kv => F (fst kv) (snd kv) = G (fst kv) (snd kv)) d ->
  ksum F d = ksum G d.
Proof.
  unfold ksum. induction 1 as [|kv d H _ IH]; [reflexivity|].
  cbn [map]. rewrite !sum_cons. lia.
Qed.

Lemma dsum_ksum {V : Type} (F : V -> Z) (d : dict V) : dsum F d = ksum (fun _ => F) d.
Proof. unfold dsum, ksum, values. now rewrite map_map. Qed.

(** Summing a per-cluster weight over the lines is summing it, times the
    cluster size, over the clusters. *)
Lemma regroup (w : label -> Z) z :
  ksum (fun p g => w p * len g) (groups_of z) = sum (map (fun tp => w (snd tp)) z).
Proof.
  induction z as [|[t p] z IH] using rev_ind; [reflexivity|].
  rewrite groups_of_snoc, map_app, sum_app. unfold setdefault_append.
  rewrite ksum_upsert, IH. cbn [map snd]. rewrite sum_cons.
  destruct (get (groups_of z) p).
  - rewrite len_app. cbn. lia.
  - cbn. lia.
Qed.

Lemma accurate_events_lines tc z :
  dsum (events_of tc) (groups_of z) =
  sum (map (fun tp => if exactb tc (group z (snd tp)) then 1 else 0) z).
Proof.
  rewrite <- (regroup (fun p => if exactb tc (group z p) then 1 else 0)).
  rewrite dsum_ksum. apply ksum_ext. apply Forall_forall.
  intros [p g] Hin. apply In_groups_of in Hin. destruct Hin as [Hg _].
  simpl. rewrite events_of_exactb, <- Hg. destruct (exactb tc g); lia.
Qed.

Lemma sum_map_le {A : Type} (f g : A -> Z) (l : list A) :
  (forall x, In x l -> f x <= g x) -> sum (map f l) <= sum (map g l).
Proof.
  induction l as [|x l IH]; intros H; [cbn; lia|].
  cbn [map]. rewrite !sum_cons.
  pose proof (H x (or_introl eq_refl)).
  assert (sum (map f l) <= sum (map g l)) by (apply IH; intros; apply H; now right).
  lia.
Qed.

(** ** The ground-truth sets of [collapse_pure_clusters] *)

Lemma fold_left_map_ext {A B C : Type} (f : A -> B -> A) (g : A -> C -> A)
    (h : C -> B) (l : list C) (a : A) :
  (forall a x, f a (h x) = g a x) ->
  fold_left f (map h l) a = fold_left g l a.
Proof.
  intros H. revert a. induction l as [|x l IH]; intros a; simpl; [reflexivity|].
  now rewrite H, IH.
Qed.

Lemma gt_by_pred_sets_of truth pred : gt_by_pred truth pred = sets_of (zip truth pred).
Proof.
  unfold gt_by_pred, sets_of. rewrite (zip_swap truth pred).
  apply fold_left_map_ext. intros d [t p]. reflexivity.
Qed.

Lemma sets_of_snoc z t p :
  sets_of (z ++ [(t, p)]) =
  upsert p (fun os => set_add t (match os with Some s => s | None => [] end)) (sets_of z).
Proof. unfold sets_of. now rewrite fold_left_snoc. Qed.

Lemma set_add_In x t s : In x (set_add t s) <-> x = t \/ In x s.
Proof.
  unfold set_add. destruct (existsb (String.eqb t) s) eqn:E.
  - apply existsb_eqb_In in E. split; [auto|intros [->|]; assumption].
  - rewrite in_app_iff. simpl. intuition congruence.
Qed.

Lemma set_add_NoDup t s : NoDup s -> NoDup (set_add t s).
Proof.
  intros H. unfold set_add. destruct (existsb (String.eqb t) s) eqn:E; [assumption|].
  apply NoDup_app; [assumption|repeat constructor; intros []|].
  intros x Hx [->|[]]. apply existsb_eqb_In in Hx. congruence.
Qed.

Lemma In_group z t p : In t (group z p) <-> In (t, p) z.
Proof.
  unfold group. rewrite in_map_iff. split.
  - intros ([t' p'] & E & Hin). apply filter_In in Hin. destruct Hin as [Hin Hp].
    simpl in *. apply String.eqb_eq in Hp. now subst.
  - intros H. exists (t, p). split; [reflexivity|].
    apply filter_In. split; [assumption|apply String.eqb_refl].
Qed.

Lemma sets_of_spec z p :
  NoDup (get_default (sets_of z) p []) /\
  forall x, In x (get_default (sets_of z) p []) <-> In x (group z p).
Proof.
  induction z as [|[t p'] z [IHnd IHin]] using rev_ind.
  - split; [constructor|reflexivity].
  - rewrite sets_of_snoc, group_snoc. unfold get_default in *.
    rewrite get_upsert. label_cases p p'.
    + split; [now apply set_add_NoDup|].
      intros x. rewrite set_add_In, in_app_iff, IHin. simpl. intuition congruence.
    + split; [assumption|]. intros x. rewrite app_nil_r. apply IHin.
Qed.

Lemma NoDup_constant (s : list label) (t : label) :
  NoDup s -> In t s -> (forall x, In x s -> x = t) -> s = [t].
Proof.
  intros Hnd Hin Hall. destruct s as [|a [|b s]]; [destruct Hin| |].
  - f_equal. apply Hall. now left.
  - exfalso. inversion Hnd as [|? ? Ha _]; subst. apply Ha. left.
    rewrite (Hall a), (Hall b); simpl; auto.
Qed.

Lemma sets_of_pure z p t :
  group z p <> [] -> Forall (eq t) (group z p) -> get_default (sets_of z) p [] = [t].
Proof.
  intros Hne Hall. destruct (sets_of_spec z p) as [Hnd Hin].
  rewrite Forall_forall in Hall. apply NoDup_constant; [assumption| |].
  - apply Hin. destruct (group z p) as [|a g] eqn:E; [congruence|].
    rewrite (Hall a); now left.
  - intros x Hx. symmetry. apply Hall. now apply Hin.
Qed.

Lemma relabel_cases gbp p :
  (exists t, get_default gbp p [] = [t] /\
             relabel gbp p = String.append PURE_TAG t /\ is_pure gbp p = true)
  \/ (relabel gbp p = p /\ is_pure gbp p = false).
Proof.
  unfold relabel, is_pure. destruct (get_default gbp p []) as [|t [|t' s]].
  - right. split; reflexivity.
  - left. exists t. repeat split.
  - right. split; [reflexivity|].
    apply Z.eqb_neq. unfold len. simpl. lia.
Qed.

Lemma tag_prefix (t : label) : String.prefix PURE_TAG (String.append PURE_TAG t) = true.
Proof. destruct t; reflexivity. Qed.

Lemma tag_inj (t t' : label) :
  String.append PURE_TAG t = String.append PURE_TAG t' -> t = t'.
Proof. intros H. unfold PURE_TAG in H. simpl in H. now inversion H. Qed.

Lemma zip_map_r {A B C : Type} (f : B -> C) (xs : list A) (ys : list B) :
  zip xs (map f ys) = map (fun ab => (fst ab, f (snd ab))) (zip xs ys).
Proof.
  unfold zip. revert ys. induction xs as [|x xs IH]; intros [|y ys]; simpl;
    try reflexivity.
  now rewrite IH.
Qed.

Lemma filter_length_mono {A : Type} (f g : A -> bool) (l : list A) :
  (forall x, In x l -> f x = true -> g x = true) ->
  (length (filter f l) <= length (filter g l))%nat.
Proof.
  induction l as [|x l IH]; intros H; simpl; [lia|].
  assert (length (filter f l) <= length (filter g l))%nat as Hl
    by (apply IH; intros; apply H; [now right|assumption]).
  specialize (H x (or_introl eq_refl)).
  destruct (f x); [rewrite H by reflexivity|destruct (g x)]; simpl; lia.
Qed.

(** ** Collapsing when the tag is fresh

    When no mixed predicted cluster carries a label that starts with
    [PURE_TAG], a merged label differs from every unchanged label and
    collapsing cannot lower PA. *)

Lemma true_div_le (a b n : Z) : a <= b -> 0 < n -> (true_div a n <= true_div b n)%Q.
Proof.
  intros Hab Hn. unfold true_div, Qdiv. apply Qmult_le_compat_r.
  - unfold Qle. simpl. lia.
  - apply Qinv_le_0_compat. unfold Qle. simpl. lia.
Qed.

Section FreshTag.
Variables truth pred : list label.
Hypothesis Hlen : length truth = length pred.
Hypothesis Hfresh :
  forall q, In q pred ->
    is_pure (gt_by_pred truth pred) q = false -> String.prefix PURE_TAG q = false.

Local Abbreviation z := (zip truth pred).
Local Abbreviation r := (relabel (gt_by_pred truth pred)).
Local Abbreviation tc := (Counter truth).

Lemma relabelled_line t t1 p1 :
  In (t1, p1) z -> r p1 = String.append PURE_TAG t -> t1 = t.
Proof.
  intros Hin Hr.
  destruct (relabel_cases (gt_by_pred truth pred) p1) as [(t' & Hs & Hr' & _)|[Hr' Hp]].
  - rewrite Hr' in Hr. apply tag_inj in Hr. subst t'.
    rewrite gt_by_pred_sets_of in Hs.
    destruct (sets_of_spec z p1) as [_ Hset].
    apply In_group, Hset in Hin. rewrite Hs in Hin.
    destruct Hin as [|[]]. congruence.
  - rewrite Hr' in Hr. apply in_combine_r in Hin.
    pose proof (Hfresh p1 Hin Hp) as Hpre.
    rewrite Hr, tag_prefix in Hpre. discriminate.
Qed.

Lemma group_relabelled q :
  group (zip truth (map r pred)) q =
  map fst (filter (fun tp => String.eqb q (r (snd tp))) z).
Proof.
  rewrite zip_map_r. unfold group. rewrite filter_map_swap, map_map. reflexivity.
Qed.

Lemma exact_preserved t0 p :
  In (t0, p) z ->
  exactb tc (group z p) = true ->
  exactb tc (group (zip truth (map r pred)) (r p)) = true.
Proof.
  intros Hin H. apply exactb_spec in H. destruct H as (t & Hne & Hall & Hl).
  assert (r p = String.append PURE_TAG t) as Hr.
  { unfold relabel. rewrite gt_by_pred_sets_of, (sets_of_pure z p t Hne Hall).
    reflexivity. }
  apply exactb_spec. exists t. rewrite group_relabelled.
  set (same := fun tp : label * label => String.eqb (r p) (r (snd tp))).
  assert (forall tp, In tp z -> same tp = true -> fst tp = t) as Hsame.
  { intros [t1 p1] Hin1 E. unfold same in E. cbn [fst snd] in *.
    apply String.eqb_eq in E.
    apply (relabelled_line t t1 p1 Hin1). now rewrite <- E. }
  assert (len (group z p) <= len (map fst (filter same z))) as Hlow.
  { unfold group, len. rewrite !length_map. apply inj_le.
    apply filter_length_mono. intros tp _ E. apply String.eqb_eq in E.
    unfold same. rewrite E. apply String.eqb_refl. }
  assert (len (map fst (filter same z)) <= get_default tc t 0) as Hup.
  { rewrite get_default_Counter. unfold occ.
    rewrite <- (map_fst_zip truth pred) at 2 by lia.
    rewrite filter_map_swap. unfold len. rewrite !length_map. apply inj_le.
    apply filter_length_mono. intros tp Htp E.
    rewrite (Hsame tp Htp E). apply String.eqb_refl. }
  assert (0 < len (group z p)) as Hpos.
  { unfold len. destruct (group z p); [congruence|simpl; lia]. }
  split; [|split].
  - intros E. rewrite E in Hlow. cbn in Hlow. lia.
  - apply Forall_forall. intros x Hx. apply in_map_iff in Hx.
    destruct Hx as (tp & <- & Htp). apply filter_In in Htp.
    symmetry. now apply Hsame.
  - lia.
Qed.

Lemma accurate_events_monotone :
  dsum (events_of tc) (groups_of z) <=
  dsum (events_of tc) (groups_of (zip truth (map r pred))).
Proof.
  rewrite !accurate_events_lines.
  set (w := fun q => if exactb tc (group (zip truth (map r pred)) q) then 1 else 0).
  change (sum (map (fun tp => if exactb tc (group z (snd tp)) then 1 else 0) z) <=
          sum (map (fun tp => w (snd tp)) (zip truth (map r pred)))).
  rewrite zip_map_r, map_map.
  apply sum_map_le. intros [t0 p] Hin. unfold w. cbn [fst snd].
  destruct (exactb tc (group z p)) eqn:E.
  - rewrite (exact_preserved t0 p Hin E). lia.
  - destruct (exactb tc (group (zip truth (map r pred)) (r p))); lia.
Qed.

(** A merged label differs from every label left unchanged. *)
Lemma merged_label_fresh p q :
  In p pred -> In q pred ->
  is_pure (gt_by_pred truth pred) p = true ->
  is_pure (gt_by_pred truth pred) q = false ->
  r p <> r q.
Proof.
  intros Hp Hq Ep Eq.
  destruct (relabel_cases (gt_by_pred truth pred) p) as [(t & _ & Hr & _)|[_ E]];
    [|congruence].
  destruct (relabel_cases (gt_by_pred truth pred) q) as [(t' & _ & _ & E)|[Hr' _]];
    [congruence|].
  rewrite Hr, Hr'. intros <-.
  pose proof (tag_prefix t) as Ht. rewrite (Hfresh _ Hq Eq) in Ht. discriminate.
Qed.

(** Collapsing does not lower PA. *)
Lemma collapse_PA_monotone_fresh :
  exists m merged_pred pure_coverage m',
    accuracy_metrics truth pred = Ok m /\
    collapse_pure_clusters truth pred = Ok (merged_pred, pure_coverage) /\
    accuracy_metrics truth merged_pred = Ok m' /\
    (PA m <= PA m')%Q.
Proof.
  do 4 eexists.
  split; [apply accuracy_metrics_scores; lia|].
  split; [apply collapse_pure_clusters_map|].
  split; [apply accuracy_metrics_scores; rewrite length_map; lia|].
  unfold scores. simpl.
  destruct (Z.eqb_spec (len truth) 0); [apply Qle_refl|].
  apply true_div_le; [apply accurate_events_monotone|].
  pose proof (len_nonneg truth). lia.
Qed.
End FreshTag.

(** ** No division by zero

    The embedding with a raising division returns what the embedding with
    the total division returns: every division of the code is reached with
    a non-zero denominator. *)

Lemma guarded_div (a b : Z) :
  (if b =? 0 then Ok 0%Q else Raising.div a b) =
  Ok (if b =? 0 then 0%Q else true_div a b).
Proof.
  unfold Raising.div. destruct (b =? 0); reflexivity.
Qed.

Lemma guarded_div_nonneg (a b : Z) :
  0 <= a -> 0 <= b -> (0 <= if b =? 0 then 0%Q else true_div a b)%Q.
Proof.
  intros Ha Hb. destruct (Z.eqb_spec b 0); [apply Qle_refl|].
  unfold true_div. apply Qle_shift_div_l.
  - unfold Qlt. simpl. lia.
  - rewrite Qmult_0_l. unfold Qle. simpl. lia.
Qed.

(** The test of the F1 line is enough because precision and recall are not
    negative: their sum is zero only when both are. *)
Lemma guarded_float_div (p r : Q) :
  (0 <= p)%Q -> (0 <= r)%Q ->
  (if is_zero p && is_zero r then Ok 0%Q
   else Raising.float_div (2 * p * r) (p + r)) =
  Ok (f1_of p r).
Proof.
  intros Hp Hr. unfold f1_of, Raising.float_div.
  destruct (is_zero p && is_zero r) eqn:E; [reflexivity|].
  destruct (is_zero (p + r)) eqn:E'; [|reflexivity].
  exfalso. apply is_zero_spec in E'.
  apply andb_false_iff in E.
  destruct E as [E|E]; apply not_true_iff_false in E;
    rewrite is_zero_spec in E; lra.
Qed.

Lemma group_body_pairs_grow truth tc st item st' :
  group_body truth tc st item = Ok st' -> fst st <= fst st'.
Proof.
  destruct st as [ap ae], item as [p idxs]. unfold group_body.
  destruct (map_result (getitem truth) idxs) as [gts|e]; cbn [bind]; [|discriminate].
  intros H. inversion H. cbn [fst]. rewrite pairs_of_Counter.
  pose proof (agree_pairs_nonneg String.eqb gts). lia.
Qed.

Lemma for_each_pairs_grow truth tc d st st' :
  for_each (group_body truth tc) d st = Ok st' -> fst st <= fst st'.
Proof.
  revert st. induction d as [|item d IH]; intros st; cbn [for_each].
  - intros H. inversion H. lia.
  - destruct (group_body truth tc st item) as [st1|e] eqn:E; cbn [bind];
      [|discriminate].
    intros H. apply group_body_pairs_grow in E. apply IH in H. lia.
Qed.

Lemma pairs_of_Counter_nonneg (l : list label) : 0 <= pairs_of (Counter l).
Proof. rewrite pairs_of_Counter. apply agree_pairs_nonneg. Qed.

Lemma raising_accuracy_metrics (truth pred : list label) :
  Raising.accuracy_metrics truth pred = accuracy_metrics truth pred.
Proof.
  unfold Raising.accuracy_metrics, accuracy_metrics.
  destruct (for_each _ _ _) as [[ap ae]|e] eqn:E; [|reflexivity].
  apply for_each_pairs_grow in E. cbn [fst] in E. cbn [bind].
  rewrite !guarded_div. cbn [bind].
  rewrite guarded_float_div
    by (apply guarded_div_nonneg; (assumption || apply pairs_of_Counter_nonneg)).
  reflexivity.
Qed.

Lemma raising_purity_metric (base_ids other_ids : list label) :
  Raising.purity_metric base_ids other_ids = Ok (purity_metric base_ids other_ids).
Proof.
  unfold Raising.purity_metric, purity_metric.
  destruct (purity_sums _) as [top_sum total_sum]. apply guarded_div.
Qed.

Lemma raising_collapse_pure_clusters (truth pred : list label) :
  Raising.collapse_pure_clusters truth pred = collapse_pure_clusters truth pred.
Proof.
  unfold Raising.collapse_pure_clusters, collapse_pure_clusters.
  destruct (fold_left _ _ _) as [mapping pure_mask].
  destruct (map_result _ _) as [merged|e]; [|reflexivity].
  cbn [bind]. rewrite guarded_div. reflexivity.
Qed.

Lemma raising_compare_pair (truth pred : list label) :
  Raising.compare_pair truth pred = compare_pair truth pred.
Proof.
  unfold Raising.compare_pair, compare_pair.
  destruct (negb _); [reflexivity|].
  rewrite raising_accuracy_metrics.
  destruct (accuracy_metrics truth pred) as [m|e]; [|reflexivity].
  cbn [bind]. rewrite !raising_purity_metric. cbn [bind].
  rewrite raising_collapse_pure_clusters.
  destruct (collapse_pure_clusters truth pred) as [[friendly_pred pure_cov]|e];
    [|reflexivity].
  cbn [bind]. now rewrite raising_accuracy_metrics.
Qed.

(** The tests are needed: on empty inputs each denominator is zero, and the
    division without its test raises. *)
Lemma unguarded_division_raises :
  Raising.div 0 (pairs_of (Counter ([] : list label))) = Raise ZeroDivisionError /\
  Raising.float_div (2 * 0 * 0) (0 + 0) = Raise ZeroDivisionError /\
  Raising.div 0 (len ([] : list label)) = Raise ZeroDivisionError /\
  Raising.div 0 (snd (purity_sums (base_to_other [] []))) = Raise ZeroDivisionError /\
  Raising.div (sum_mask []) (len ([] : list label)) = Raise ZeroDivisionError.
Proof. repeat split. Qed.

(** What [scores] gives on a zero denominator. *)
Lemma scores_zero_denominators ap ae pp rp n :
  0 <= ap -> 0 <= pp -> 0 <= rp ->
  let m := scores ap ae pp rp n in
  (pp = 0 -> GA_precision m = 0%Q) /\
  (rp = 0 -> GA_recall m = 0%Q) /\
  ((GA_precision m + GA_recall m == 0)%Q -> GA m = 0%Q) /\
  (n = 0 -> PA m = 0%Q).
Proof.
  intros Ha Hp Hr m.
  pose proof (guarded_div_nonneg ap pp Ha Hp) as H1.
  pose proof (guarded_div_nonneg ap rp Ha Hr) as H2.
  split; [|split; [|split]].
  - intros ->. reflexivity.
  - intros ->. reflexivity.
  - intros E. unfold m in *. rewrite scores_GA. unfold f1_of.
    change (GA_precision (scores ap ae pp rp n))
      with (if pp =? 0 then 0%Q else true_div ap pp) in *.
    change (GA_recall (scores ap ae pp rp n))
      with (if rp =? 0 then 0%Q else true_div ap rp) in *.
    set (P := if pp =? 0 then 0%Q else true_div ap pp) in *.
    set (R := if rp =? 0 then 0%Q else true_div ap rp) in *.
    assert (is_zero P = true) as -> by (apply is_zero_spec; lra).
    assert (is_zero R = true) as -> by (apply is_zero_spec; lra).
    reflexivity.
  - intros ->. reflexivity.
Qed.

(** * The claims *)

Open Scope string_scope.
Open Scope list_scope.

(** ** C1 *)

(** C1, as stated, fails: for the one-line sequence [["E1"]] there is no pair
    of lines, [parsed_pairs] and [real_pairs] are 0, so precision, recall and
    GA are 0 by the zero-denominator convention; GA is not 1. *)
Lemma identity_GA_counterexample :
  ["E1"] <> [] /\
  ~ (exists m, accuracy_metrics ["E1"] ["E1"] = Ok m /\ (GA m == 1)%Q /\ (PA m == 1)%Q).
Proof.
  split; [discriminate|]. intros (m & H & Hga & _).
  vm_compute in H. inversion H; subst. discriminate Hga.
Qed.

(** C1 (amended): for every non-empty label sequence [x],
    [accuracy_metrics(x, x)] returns PA = 1; it returns GA = 1 when some label
    occurs at least twice in [x], and GA = 0 when all labels of [x] are
    distinct. *)
Theorem identity_PA_and_GA (x : list label) (Hne : x <> []) :
  exists m, accuracy_metrics x x = Ok m /\
    (PA m == 1)%Q /\
    (~ NoDup x -> (GA m == 1)%Q) /\
    (NoDup x -> (GA m == 0)%Q).
Proof.
  eexists. split; [apply accuracy_metrics_scores; lia|].
  rewrite accurate_pairs_diag, events_diag.
  assert (len x <> 0) as Hlen.
  { unfold len. destruct x; [congruence|simpl; lia]. }
  split; [|split].
  - unfold scores. simpl. destruct (Z.eqb_spec (len x) 0); [lia|].
    now apply true_div_self.
  - intros Hdup. rewrite <- agree_pairs_zero_iff in Hdup.
    rewrite scores_GA. apply f1_ones; unfold scores; simpl;
      (destruct (Z.eqb_spec (agree_pairs String.eqb x) 0); [lia|]);
      now apply true_div_self.
  - intros Hnd. apply agree_pairs_zero_iff in Hnd.
    unfold scores. rewrite Hnd. reflexivity.
Qed.

Lemma identity_PA_and_GA_witness :
  (exists m, accuracy_metrics ["E1"; "E2"; "E1"] ["E1"; "E2"; "E1"] = Ok m /\
     (PA m == 1)%Q /\ (GA m == 1)%Q) /\
  (exists m, accuracy_metrics ["E1"; "E2"] ["E1"; "E2"] = Ok m /\
     (PA m == 1)%Q /\ (GA m == 0)%Q).
Proof.
  split.
  - destruct (identity_PA_and_GA ["E1"; "E2"; "E1"]) as (m & H & Hpa & Hga & _);
      [discriminate|].
    exists m. repeat split; [exact H|exact Hpa|apply Hga].
    intros Hnd. inversion Hnd as [|? ? Hin _]; subst.
    apply Hin. right. left. reflexivity.
  - destruct (identity_PA_and_GA ["E1"; "E2"]) as (m & H & Hpa & _ & Hga);
      [discriminate|].
    exists m. repeat split; [exact H|exact Hpa|apply Hga].
    apply NoDup_cons; [simpl; intros [E|[]]; discriminate E|].
    apply NoDup_cons; [intros []|apply NoDup_nil].
Defined.

(** ** C2 *)

(** C2, as stated, fails: with [truth] one line longer than [pred] none of
    the three core operations fails.  [accuracy_metrics] returns a record,
    [purity_metric] returns the value of the one-line prefix, and
    [collapse_pure_clusters] returns a one-line relabelling. *)
Lemma length_mismatch_counterexample :
  length ["A"; "B"] <> length ["X"] /\
  ~ (exists e, accuracy_metrics ["A"; "B"] ["X"] = Raise e) /\
  purity_metric ["A"; "B"] ["X"] = purity_metric ["A"] ["X"] /\
  collapse_pure_clusters ["A"; "B"] ["X"] = Ok (["__PURE__#A"], 1%Q).
Proof.
  split; [discriminate|]. split; [|split; reflexivity].
  intros (e & H). vm_compute in H. discriminate H.
Qed.

(** C2 (amended): the length check belongs to the caller.  For every pair of
    sequences with [len(truth) != len(pred)], the comparison step of [run_all]
    raises [ValueError] before any core operation is called, the [except]
    clause records an error entry for that pair, and the entries of the other
    pairs of the batch are unaffected.  The core operations do not check
    lengths: [accuracy_metrics] raises (an [IndexError]) exactly when [pred]
    is the longer sequence and returns a record when [truth] is the longer
    one, [purity_metric] returns the value of the common prefix, and
    [collapse_pure_clusters] never raises. *)
Theorem length_mismatch_guard (truth pred : list label)
    (Hlen : length truth <> length pred) :
  compare_pair truth pred = Raise ValueError /\
  (forall before after,
     run_batch (before ++ (truth, pred) :: after) =
     run_batch before ++ Failed ValueError :: run_batch after) /\
  (accuracy_metrics truth pred = Raise IndexError <->
   (length truth < length pred)%nat) /\
  ((length pred < length truth)%nat ->
   exists m, accuracy_metrics truth pred = Ok m) /\
  (let n := Nat.min (length truth) (length pred) in
   purity_metric truth pred = purity_metric (firstn n truth) (firstn n pred) /\
   purity_metric pred truth = purity_metric (firstn n pred) (firstn n truth)) /\
  (exists merged_pred pure_coverage,
     collapse_pure_clusters truth pred = Ok (merged_pred, pure_coverage)).
Proof.
  assert (compare_pair truth pred = Raise ValueError) as Hcmp.
  { unfold compare_pair.
    destruct (Z.eqb_spec (len truth) (len pred)) as [E|E]; [|reflexivity].
    unfold len in E. lia. }
  split; [exact Hcmp|]. split; [|split; [|split; [|split]]].
  - intros before after. unfold run_batch. rewrite map_app. cbn [map].
    unfold run_pair at 2. cbn [fst snd]. now rewrite Hcmp.
  - split; [|apply accuracy_metrics_raises].
    intros H. destruct (Nat.lt_ge_cases (length truth) (length pred)) as [|Hge];
      [assumption|].
    rewrite (accuracy_metrics_scores truth pred Hge) in H. discriminate H.
  - intros Hlt. eexists. apply accuracy_metrics_scores. lia.
  - split; [apply purity_metric_prefix|].
    rewrite Nat.min_comm. apply purity_metric_prefix.
  - rewrite collapse_pure_clusters_map. eauto.
Qed.

Lemma length_mismatch_guard_witness :
  (compare_pair ["A"] ["X"; "Y"] = Raise ValueError /\
   run_batch [(["A"], ["X"; "Y"])] = [Failed ValueError] /\
   accuracy_metrics ["A"] ["X"; "Y"] = Raise IndexError) /\
  (compare_pair ["A"; "B"] ["X"] = Raise ValueError /\
   exists m, accuracy_metrics ["A"; "B"] ["X"] = Ok m).
Proof.
  split.
  - destruct (length_mismatch_guard ["A"] ["X"; "Y"]) as (H1 & H2 & H3 & _);
      [discriminate|].
    split; [exact H1|]. split; [exact (H2 [] [])|].
    apply H3. simpl. lia.
  - destruct (length_mismatch_guard ["A"; "B"] ["X"]) as (H1 & _ & _ & H4 & _);
      [discriminate|].
    split; [exact H1|]. apply H4. simpl. lia.
Defined.

(** ** C3 *)

(** C3 (the code departs from it): the predicted cluster ["X"] is pure and is
    relabelled ["__PURE__#A"]; the predicted cluster literally named
    ["__PURE__#A"] is mixed and keeps its label.  The merged label coincides
    with an unchanged predicted label, and the output puts the pure and the
    mixed cluster together. *)
Theorem merged_label_collision :
  let truth := ["A"; "B"; "A"] in
  let pred := ["X"; "__PURE__#A"; "__PURE__#A"] in
  let gbp := gt_by_pred truth pred in
  is_pure gbp "X" = true /\
  is_pure gbp "__PURE__#A" = false /\
  relabel gbp "X" = "__PURE__#A" /\
  relabel gbp "__PURE__#A" = "__PURE__#A" /\
  collapse_pure_clusters truth pred =
  Ok (["__PURE__#A"; "__PURE__#A"; "__PURE__#A"], (1 # 3)%Q).
Proof. repeat split; reflexivity. Qed.

(** ** C4 *)

(** C4: on [truth = ["A","A","B","B","B"]], [pred = ["X","X","Y","Y","Z"]],
    [accuracy_metrics] returns GA_precision = 1, GA_recall = 1/2, GA = 2/3 and
    PA = 2/5; [collapse_pure_clusters] relabels all three predicted clusters
    with pure_coverage = 1, and [accuracy_metrics] on the merged prediction
    returns PA = 1. *)
Theorem concrete_scenario :
  let truth := ["A"; "A"; "B"; "B"; "B"] in
  let pred := ["X"; "X"; "Y"; "Y"; "Z"] in
  exists m merged_pred pure_coverage m',
    accuracy_metrics truth pred = Ok m /\
    (GA_precision m == 1)%Q /\ (GA_recall m == 1 # 2)%Q /\
    (GA m == 2 # 3)%Q /\ (PA m == 2 # 5)%Q /\
    collapse_pure_clusters truth pred = Ok (merged_pred, pure_coverage) /\
    merged_pred = ["__PURE__#A"; "__PURE__#A"; "__PURE__#B"; "__PURE__#B"; "__PURE__#B"] /\
    (pure_coverage == 1)%Q /\
    accuracy_metrics truth merged_pred = Ok m' /\
    (PA m' == 1)%Q.
Proof.
  intros truth pred. do 4 eexists.
  split; [vm_compute; reflexivity|].
  do 4 (split; [reflexivity|]).
  split; [vm_compute; reflexivity|].
  split; [reflexivity|]. split; [reflexivity|].
  split; [vm_compute; reflexivity|reflexivity].
Qed.

(** ** C5 *)

(** C5 (the code departs from it): the predicted cluster ["X"] reconstructs
    the ground-truth cluster ["A"] exactly, so PA = 1/3 before collapsing.
    Collapsing relabels it ["__PURE__#A"], the literal label of a mixed
    predicted cluster; the three lines become one cluster and PA drops to 0. *)
Theorem collapse_PA_drop :
  let truth := ["A"; "B"; "C"] in
  let pred := ["X"; "__PURE__#A"; "__PURE__#A"] in
  exists m merged_pred pure_coverage m',
    accuracy_metrics truth pred = Ok m /\
    collapse_pure_clusters truth pred = Ok (merged_pred, pure_coverage) /\
    accuracy_metrics truth merged_pred = Ok m' /\
    (PA m == 1 # 3)%Q /\ (PA m' == 0)%Q /\ ~ (PA m <= PA m')%Q.
Proof.
  intros truth pred. do 4 eexists.
  split; [vm_compute; reflexivity|].
  split; [vm_compute; reflexivity|].
  split; [vm_compute; reflexivity|].
  split; [reflexivity|]. split; [reflexivity|].
  intros H. vm_compute in H. apply H. reflexivity.
Qed.

(** ** C6 *)

(** C6: for equal-length [a] and [b], the precision of
    [accuracy_metrics(a, b)] is the recall of [accuracy_metrics(b, a)] and
    the recall of the former is the precision of the latter. *)
Theorem precision_recall_swap (a b : list label) (Hlen : length a = length b) :
  exists m1 m2,
    accuracy_metrics a b = Ok m1 /\ accuracy_metrics b a = Ok m2 /\
    GA_precision m1 = GA_recall m2 /\ GA_recall m1 = GA_precision m2.
Proof.
  do 2 eexists.
  split; [apply accuracy_metrics_scores; lia|].
  split; [apply accuracy_metrics_scores; lia|].
  rewrite (accurate_pairs_swap a b). split; reflexivity.
Qed.

Lemma precision_recall_swap_witness :
  exists m1 m2,
    accuracy_metrics ["A"; "A"; "B"] ["X"; "Y"; "Y"] = Ok m1 /\
    accuracy_metrics ["X"; "Y"; "Y"] ["A"; "A"; "B"] = Ok m2 /\
    GA_precision m1 = GA_recall m2 /\ GA_recall m1 = GA_precision m2.
Proof. apply (precision_recall_swap ["A"; "A"; "B"] ["X"; "Y"; "Y"]). reflexivity. Defined.

(** ** C7 *)

(** C7, as stated, fails: for [truth = []] and [pred = ["X"]] the three
    denominators N, [real_pairs] and [parsed_pairs] are all 0, and
    [accuracy_metrics] raises [IndexError] at [truth[0]] instead of
    returning zeros. *)
Lemma zero_denominator_counterexample :
  len ([] : list label) = 0 /\
  pairs_of (Counter ([] : list label)) = 0 /\
  pairs_of (Counter ["X"]) = 0 /\
  Raising.accuracy_metrics [] ["X"] = Raise IndexError /\
  ~ (exists m, Raising.accuracy_metrics [] ["X"] = Ok m).
Proof.
  split; [reflexivity|]. split; [reflexivity|]. split; [reflexivity|].
  split; [reflexivity|]. intros (m & H). vm_compute in H. discriminate H.
Qed.

(** C7 (amended): no division of [accuracy_metrics] or [purity_metric] is by
    zero.  [accuracy_metrics] raises no [ZeroDivisionError] on any input; it
    raises at all (an [IndexError]) exactly when [pred] is longer than
    [truth].  When [pred] is not longer than [truth], so in particular for
    equal-length and for empty inputs, it returns a record in which a metric
    whose denominator ([parsed_pairs], [real_pairs], precision + recall, or
    N) is 0 is 0.  [purity_metric] returns on every input, and returns 0 when
    its total label count is 0.  [accuracy_metrics([], [])] returns four
    zeros and [purity_metric([], [])] returns 0. *)
Theorem zero_denominators_guarded (truth pred base_ids other_ids : list label) :
  Raising.accuracy_metrics truth pred <> Raise ZeroDivisionError /\
  (Raising.accuracy_metrics truth pred = Raise IndexError <->
   (length truth < length pred)%nat) /\
  ((length pred <= length truth)%nat ->
   exists m, Raising.accuracy_metrics truth pred = Ok m /\
     (pairs_of (Counter pred) = 0 -> GA_precision m = 0%Q) /\
     (pairs_of (Counter truth) = 0 -> GA_recall m = 0%Q) /\
     ((GA_precision m + GA_recall m == 0)%Q -> GA m = 0%Q) /\
     (len truth = 0 -> PA m = 0%Q)) /\
  (exists q, Raising.purity_metric base_ids other_ids = Ok q /\
     (snd (purity_sums (base_to_other base_ids other_ids)) = 0 -> q = 0%Q)) /\
  Raising.accuracy_metrics [] [] = Ok (Metrics 0 0 0 0) /\
  Raising.purity_metric [] [] = Ok 0%Q.
Proof.
  rewrite raising_accuracy_metrics.
  split; [|split; [|split; [|split; [|split; reflexivity]]]].
  - destruct (Nat.lt_ge_cases (length truth) (length pred)) as [Hlt|Hge].
    + rewrite (accuracy_metrics_raises truth pred Hlt). discriminate.
    + rewrite (accuracy_metrics_scores truth pred Hge). discriminate.
  - split; [|apply accuracy_metrics_raises].
    intros H. destruct (Nat.lt_ge_cases (length truth) (length pred)) as [|Hge];
      [assumption|].
    rewrite (accuracy_metrics_scores truth pred Hge) in H. discriminate H.
  - intros Hlen. eexists. split; [apply accuracy_metrics_scores; exact Hlen|].
    rewrite !pairs_of_Counter.
    apply scores_zero_denominators; apply agree_pairs_nonneg.
  - rewrite raising_purity_metric. eexists. split; [reflexivity|].
    intros E. unfold purity_metric.
    destruct (purity_sums _) as [top_sum total_sum]. simpl in E. now rewrite E.
Qed.

Lemma zero_denominators_guarded_witness :
  (exists m, Raising.accuracy_metrics [] [] = Ok m /\
     GA_precision m = 0%Q /\ GA_recall m = 0%Q /\ GA m = 0%Q /\ PA m = 0%Q) /\
  (exists m, Raising.accuracy_metrics ["A"; "B"] ["X"; "Y"] = Ok m /\
     GA_precision m = 0%Q /\ GA_recall m = 0%Q /\ GA m = 0%Q) /\
  Raising.accuracy_metrics [] ["X"] = Raise IndexError /\
  Raising.purity_metric [] [] = Ok 0%Q.
Proof.
  split; [|split; [|split]].
  - destruct (zero_denominators_guarded [] [] [] []) as (_ & _ & H & _).
    destruct H as (m & Hm & Hp & Hr & Hga & Hpa); [simpl; lia|].
    exists m. split; [exact Hm|].
    assert (GA_precision m = 0%Q) as Ep by (apply Hp; reflexivity).
    assert (GA_recall m = 0%Q) as Er by (apply Hr; reflexivity).
    split; [exact Ep|]. split; [exact Er|].
    split; [apply Hga; rewrite Ep, Er; reflexivity|apply Hpa; reflexivity].
  - destruct (zero_denominators_guarded ["A"; "B"] ["X"; "Y"] [] [])
      as (_ & _ & H & _).
    destruct H as (m & Hm & Hp & Hr & Hga & _); [simpl; lia|].
    exists m. split; [exact Hm|].
    assert (GA_precision m = 0%Q) as Ep by (apply Hp; reflexivity).
    assert (GA_recall m = 0%Q) as Er by (apply Hr; reflexivity).
    split; [exact Ep|]. split; [exact Er|].
    apply Hga. rewrite Ep, Er. reflexivity.
  - destruct (zero_denominators_guarded [] ["X"] [] []) as (_ & H & _).
    apply H. simpl. lia.
  - destruct (zero_denominators_guarded [] [] [] []) as (_ & _ & _ & H & _).
    destruct H as (q & Hq & H0). rewrite Hq. f_equal. apply H0. reflexivity.
Defined.

(** ** C8 *)

(** C8: for equal-length inputs every value the core produces lies in
    [[0, 1]]: GA, GA_precision, GA_recall and PA of [accuracy_metrics], the
    result of [purity_metric] in either argument order, and the
    pure_coverage of [collapse_pure_clusters]. *)
Theorem metrics_in_unit_interval (truth pred : list label)
    (Hlen : length truth = length pred) :
  (exists m, accuracy_metrics truth pred = Ok m /\
     in_unit (GA m) /\ in_unit (GA_precision m) /\ in_unit (GA_recall m) /\
     in_unit (PA m)) /\
  in_unit (purity_metric pred truth) /\
  in_unit (purity_metric truth pred) /\
  (exists merged_pred pure_coverage,
     collapse_pure_clusters truth pred = Ok (merged_pred, pure_coverage) /\
     in_unit pure_coverage).
Proof.
  split; [now apply accuracy_metrics_unit|].
  split; [apply purity_metric_unit|]. split; [apply purity_metric_unit|].
  rewrite collapse_pure_clusters_map. do 2 eexists.
  split; [reflexivity|apply pure_coverage_unit].
Qed.

Lemma metrics_in_unit_interval_witness :
  (exists m, accuracy_metrics ["A"; "A"; "B"] ["X"; "Y"; "Y"] = Ok m /\
     in_unit (GA m) /\ in_unit (GA_precision m) /\ in_unit (GA_recall m) /\
     in_unit (PA m)) /\
  in_unit (purity_metric ["X"; "Y"; "Y"] ["A"; "A"; "B"]) /\
  in_unit (purity_metric ["A"; "A"; "B"] ["X"; "Y"; "Y"]) /\
  (exists merged_pred pure_coverage,
     collapse_pure_clusters ["A"; "A"; "B"] ["X"; "Y"; "Y"] =
     Ok (merged_pred, pure_coverage) /\
     in_unit pure_coverage).
Proof.
  apply (metrics_in_unit_interval ["A"; "A"; "B"] ["X"; "Y"; "Y"]). reflexivity.
Defined.

(** ** C9 *)

(** C9, as stated, fails: for the empty sequence the total label count is 0
    and [purity_metric] returns 0, not 1. *)
Lemma purity_empty_counterexample : ~ (purity_metric [] [] == 1)%Q.
Proof. intros H. vm_compute in H. discriminate H. Qed.

(** C9 (amended): for every non-empty label sequence [a],
    [purity_metric(a, a) == 1]; for the empty sequence it is 0. *)
Theorem purity_self (a : list label) (Hne : a <> []) :
  (purity_metric a a == 1)%Q /\ (purity_metric [] [] == 0)%Q.
Proof.
  split; [|reflexivity].
  unfold purity_metric. change (base_to_other a a) with (table_of (zip a a)).
  rewrite purity_sums_diag.
  assert (len a <> 0) as H by (unfold len; destruct a; [congruence|simpl; lia]).
  destruct (Z.eqb_spec (len a) 0); [lia|]. now apply true_div_self.
Qed.

Lemma purity_self_witness :
  (purity_metric ["A"; "B"; "A"] ["A"; "B"; "A"] == 1)%Q /\
  (purity_metric [] [] == 0)%Q.
Proof. apply (purity_self ["A"; "B"; "A"]). discriminate. Defined.

(** ** C10 *)

(** C10: [collapse_pure_clusters] returns a [merged_pred] as long as [pred],
    and two positions that carry the same predicted label in [pred] carry the
    same label in [merged_pred]: the label at a position of [merged_pred] is
    one function of the label at that position of [pred]. *)
Theorem collapse_relabels (truth pred : list label) :
  exists merged_pred pure_coverage,
    collapse_pure_clusters truth pred = Ok (merged_pred, pure_coverage) /\
    length merged_pred = length pred /\
    forall i j p,
      nth_error pred i = Some p -> nth_error pred j = Some p ->
      exists q, nth_error merged_pred i = Some q /\ nth_error merged_pred j = Some q.
Proof.
  rewrite collapse_pure_clusters_map. do 2 eexists.
  split; [reflexivity|]. split; [apply length_map|].
  intros i j p Hi Hj. exists (relabel (gt_by_pred truth pred) p).
  split; now apply map_nth_error.
Qed.

Lemma collapse_relabels_witness :
  exists merged_pred pure_coverage,
    collapse_pure_clusters ["A"; "B"; "A"] ["X"; "Y"; "X"] =
    Ok (merged_pred, pure_coverage) /\
    length merged_pred = 3%nat /\
    exists q, nth_error merged_pred 0 = Some q /\ nth_error merged_pred 2 = Some q.
Proof.
  destruct (collapse_relabels ["A"; "B"; "A"] ["X"; "Y"; "X"])
    as (merged_pred & pure_coverage & H & Hl & Hsame).
  exists merged_pred, pure_coverage. split; [exact H|]. split; [exact Hl|].
  apply (Hsame 0%nat 2%nat "X"); reflexivity.
Defined.

(** * Further properties of the code *)

Open Scope Z_scope.

(** ** Pure predicted clusters *)

Lemma In_zip_nth {A B : Type} (xs : list A) (ys : list B) (x : A) (y : B) :
  In (x, y) (zip xs ys) <->
  exists i, nth_error xs i = Some x /\ nth_error ys i = Some y.
Proof.
  unfold zip. revert ys. induction xs as [|a xs IH]; intros [|b ys]; simpl.
  - split; [intros []|intros ([|i] & H & _); discriminate H].
  - split; [intros []|intros ([|i] & H & _); discriminate H].
  - split; [intros []|intros ([|i] & _ & H); discriminate H].
  - rewrite IH. split.
    + intros [E|(i & H1 & H2)].
      * inversion E; subst. exists 0%nat. split; reflexivity.
      * exists (S i). split; assumption.
    + intros ([|i] & H1 & H2); simpl in *.
      * left. congruence.
      * right. eauto.
Qed.

Lemma sets_of_members z p x :
  In x (get_default (sets_of z) p []) <-> In (x, p) z.
Proof.
  destruct (sets_of_spec z p) as [_ H]. rewrite H. apply In_group.
Qed.

Lemma sets_of_singleton_iff z p t :
  get_default (sets_of z) p [] = [t] <-> pure_for z p t.
Proof.
  split.
  - intros E. split.
    + apply sets_of_members. rewrite E. now left.
    + intros t' H. apply sets_of_members in H. rewrite E in H.
      destruct H as [|[]]. congruence.
  - intros [Hin Hall]. destruct (sets_of_spec z p) as [Hnd _].
    apply NoDup_constant; [assumption| |].
    + now apply sets_of_members.
    + intros x Hx. apply Hall. now apply sets_of_members.
Qed.

Lemma relabel_pure_for truth pred p t :
  pure_for (zip truth pred) p t ->
  relabel (gt_by_pred truth pred) p = String.append PURE_TAG t /\
  is_pure (gt_by_pred truth pred) p = true.
Proof.
  intros H. apply sets_of_singleton_iff in H.
  unfold relabel, is_pure. rewrite gt_by_pred_sets_of, H. split; reflexivity.
Qed.

Lemma relabel_not_pure truth pred p :
  (forall t, ~ pure_for (zip truth pred) p t) ->
  relabel (gt_by_pred truth pred) p = p /\
  is_pure (gt_by_pred truth pred) p = false.
Proof.
  intros H.
  destruct (relabel_cases (gt_by_pred truth pred) p) as [(t & Hs & _)|Hm];
    [|exact Hm].
  exfalso. apply (H t). apply sets_of_singleton_iff.
  now rewrite <- gt_by_pred_sets_of.
Qed.

(** X1: line by line, [collapse_pure_clusters] replaces the predicted label of
    line [i] by ["__PURE__#"] followed by the ground-truth label of that line
    when every line with the same predicted label has that ground-truth
    label, and leaves the predicted label unchanged when some line with the
    same predicted label has another ground-truth label. *)
Theorem collapse_linewise (truth pred : list label) (i : nat) (t p : label)
    (Ht : nth_error truth i = Some t) (Hp : nth_error pred i = Some p) :
  exists merged_pred pure_coverage,
    collapse_pure_clusters truth pred = Ok (merged_pred, pure_coverage) /\
    ((forall j t', nth_error truth j = Some t' -> nth_error pred j = Some p -> t' = t) ->
     nth_error merged_pred i = Some (String.append PURE_TAG t)) /\
    ((exists j t', nth_error truth j = Some t' /\ nth_error pred j = Some p /\ t' <> t) ->
     nth_error merged_pred i = Some p).
Proof.
  rewrite collapse_pure_clusters_map. do 2 eexists. split; [reflexivity|].
  assert (In (t, p) (zip truth pred)) as Hin by (apply In_zip_nth; eauto).
  split.
  - intros Hall.
    destruct (relabel_pure_for truth pred p t) as [<- _].
    + split; [assumption|]. intros t' H. apply In_zip_nth in H.
      destruct H as (j & H1 & H2). eauto.
    + now apply map_nth_error.
  - intros (j & t' & H1 & H2 & Hne).
    destruct (relabel_not_pure truth pred p) as [E _].
    + intros t0 [_ Hall]. apply Hne.
      rewrite (Hall t), (Hall t'); [reflexivity| |assumption].
      apply In_zip_nth. eauto.
    + rewrite (map_nth_error _ _ _ Hp). now rewrite E.
Qed.

Lemma collapse_linewise_witness :
  exists merged_pred pure_coverage,
    collapse_pure_clusters ["A"; "B"; "A"; "C"] ["X"; "Y"; "X"; "Y"] =
    Ok (merged_pred, pure_coverage) /\
    nth_error merged_pred 0 = Some "__PURE__#A" /\
    nth_error merged_pred 1 = Some "Y".
Proof.
  destruct (collapse_linewise ["A"; "B"; "A"; "C"] ["X"; "Y"; "X"; "Y"] 0 "A" "X"
              eq_refl eq_refl) as (m & c & H & Hpure & _).
  destruct (collapse_linewise ["A"; "B"; "A"; "C"] ["X"; "Y"; "X"; "Y"] 1 "B" "Y"
              eq_refl eq_refl) as (m' & c' & H' & _ & Hmixed).
  rewrite H in H'. inversion H'; subst m' c'.
  exists m, c. split; [exact H|]. split.
  - apply Hpure. intros [|[|[|[|j]]]] t' H1 H2; simpl in *;
      try discriminate; try congruence.
    destruct j; discriminate.
  - apply Hmixed. exists 3%nat, "C". repeat split. discriminate.
Defined.

(** ** Renaming labels *)

Lemma eqb_injective f x y : injective f -> String.eqb (f x) (f y) = String.eqb x y.
Proof.
  intros Hf. label_cases x y; [apply String.eqb_refl|].
  apply String.eqb_neq. intros E. apply Hf in E. congruence.
Qed.

Lemma upsert_rename_keys {V : Type} f k g (d : dict V) :
  injective f ->
  upsert (f k) g (rename_keys f d) = rename_keys f (upsert k g d).
Proof.
  intros Hf. unfold rename_keys. induction d as [|[k0 v] d IH]; simpl; [reflexivity|].
  rewrite (eqb_injective f k k0 Hf). destruct (String.eqb k k0); simpl; [reflexivity|].
  now rewrite IH.
Qed.

Lemma upsert_map_values {V W : Type} (h : V -> W) k g g' (d : dict V) :
  (forall o, g' (option_map h o) = h (g o)) ->
  upsert k g' (map_values h d) = map_values h (upsert k g d).
Proof.
  intros H. unfold map_values. induction d as [|[k0 v] d IH]; simpl.
  - now rewrite <- H.
  - destruct (String.eqb k k0); simpl; [now rewrite <- H|now rewrite IH].
Qed.

Lemma dsum_rename_keys {V : Type} (F : V -> Z) f (d : dict V) :
  dsum F (rename_keys f d) = dsum F d.
Proof. unfold dsum, values, rename_keys. now rewrite !map_map. Qed.

Lemma dsum_map_values {V W : Type} (F : W -> Z) (h : V -> W) (d : dict V) :
  dsum F (map_values h d) = dsum (fun v => F (h v)) d.
Proof. unfold dsum, values, map_values. now rewrite !map_map. Qed.

Lemma Counter_rename f l : injective f -> Counter (map f l) = rename_keys f (Counter l).
Proof.
  intros Hf. induction l as [|x l IH] using rev_ind; [reflexivity|].
  rewrite map_app. simpl. rewrite !Counter_snoc, IH. unfold counter_incr.
  now apply upsert_rename_keys.
Qed.

Lemma groups_of_rename_pred g z :
  injective g ->
  groups_of (map (fun tp => (fst tp, g (snd tp))) z) = rename_keys g (groups_of z).
Proof.
  intros Hg. induction z as [|[t p] z IH] using rev_ind; [reflexivity|].
  rewrite map_app. simpl. rewrite !groups_of_snoc, IH. unfold setdefault_append.
  now apply upsert_rename_keys.
Qed.

Lemma groups_of_rename_truth f z :
  groups_of (map (fun tp => (f (fst tp), snd tp)) z) = map_values (map f) (groups_of z).
Proof.
  induction z as [|[t p] z IH] using rev_ind; [reflexivity|].
  rewrite map_app. simpl. rewrite !groups_of_snoc, IH. unfold setdefault_append.
  apply upsert_map_values. intros [l|]; simpl; [now rewrite map_app|reflexivity].
Qed.

Lemma occ_rename f x l :
  injective f -> occ String.eqb (f x) (map f l) = occ String.eqb x l.
Proof. intros Hf. apply occ_map. intros y. now apply eqb_injective. Qed.

Lemma events_of_rename f truth g :
  injective f ->
  events_of (Counter (map f truth)) (map f g) = events_of (Counter truth) g.
Proof.
  intros Hf. unfold events_of. rewrite (Counter_rename f g Hf).
  assert (len (rename_keys f (Counter g)) = len (Counter g)) as ->
    by (unfold len, rename_keys; now rewrite length_map).
  assert (len (map f g) = len g) as -> by (unfold len; now rewrite length_map).
  destruct (len (Counter g) =? 1); [|reflexivity].
  destruct (Counter g) as [|[t n] c]; [reflexivity|]. simpl.
  now rewrite !get_default_Counter, occ_rename.
Qed.

Lemma zip_map_both {A B A' B' : Type} (f : A -> A') (g : B -> B') xs ys :
  zip (map f xs) (map g ys) = map (fun ab => (f (fst ab), g (snd ab))) (zip xs ys).
Proof.
  unfold zip. revert ys. induction xs as [|x xs IH]; intros [|y ys]; simpl;
    try reflexivity.
  now rewrite IH.
Qed.

Lemma agree_pairs_rename f l :
  injective f -> agree_pairs String.eqb (map f l) = agree_pairs String.eqb l.
Proof. intros Hf. apply agree_pairs_map. intros x y. now apply eqb_injective. Qed.

Lemma accurate_pairs_rename f g z :
  injective f -> injective g ->
  agree_pairs pair_eqb (map (fun tp => (f (fst tp), g (snd tp))) z) =
  agree_pairs pair_eqb z.
Proof.
  intros Hf Hg. apply agree_pairs_map. intros x y. unfold pair_eqb. simpl.
  now rewrite !eqb_injective.
Qed.

Lemma accurate_events_rename f g truth z :
  injective f -> injective g ->
  dsum (events_of (Counter (map f truth)))
       (groups_of (map (fun tp => (f (fst tp), g (snd tp))) z)) =
  dsum (events_of (Counter truth)) (groups_of z).
Proof.
  intros Hf Hg.
  replace (map (fun tp => (f (fst tp), g (snd tp))) z)
    with (map (fun tp => (fst tp, g (snd tp))) (map (fun tp => (f (fst tp), snd tp)) z))
    by (rewrite map_map; reflexivity).
  rewrite groups_of_rename_pred, dsum_rename_keys by assumption.
  rewrite groups_of_rename_truth, dsum_map_values.
  apply dsum_ext. apply Forall_forall. intros kv _. now apply events_of_rename.
Qed.

(** The closed form of [accuracy_metrics] is blind to the names of the
    labels. *)
Lemma accuracy_metrics_scores_rename f g truth pred :
  injective f -> injective g ->
  (length pred <= length truth)%nat ->
  accuracy_metrics (map f truth) (map g pred) =
  Ok (scores (agree_pairs pair_eqb (zip truth pred))
             (dsum (events_of (Counter truth)) (groups_of (zip truth pred)))
             (agree_pairs String.eqb pred)
             (agree_pairs String.eqb truth)
             (len truth)).
Proof.
  intros Hf Hg Hlen.
  rewrite accuracy_metrics_scores by (rewrite !length_map; assumption).
  rewrite zip_map_both, accurate_pairs_rename, accurate_events_rename by assumption.
  rewrite !agree_pairs_rename by assumption.
  unfold len. now rewrite length_map.
Qed.

Lemma scores_perfect (k n : Z) :
  n <> 0 ->
  let m := scores k n k k n in
  (PA m == 1)%Q /\ (k <> 0 -> (GA m == 1)%Q) /\ (k = 0 -> (GA m == 0)%Q).
Proof.
  intros Hn m. split; [|split].
  - unfold m, scores. simpl. destruct (Z.eqb_spec n 0); [lia|].
    now apply true_div_self.
  - intros Hk. unfold m. rewrite scores_GA. apply f1_ones; unfold scores; simpl;
      (destruct (Z.eqb_spec k 0); [lia|]); now apply true_div_self.
  - intros ->. reflexivity.
Qed.

(** X2: the metrics depend on the two partitions only, not on the names of
    the labels: renaming the ground-truth labels by an injective [f] and the
    predicted labels by an injective [g] leaves the result of
    [accuracy_metrics] unchanged, the raised [IndexError] included. *)
Theorem accuracy_metrics_renaming (f g : label -> label) (truth pred : list label)
    (Hf : injective f) (Hg : injective g) :
  accuracy_metrics (map f truth) (map g pred) = accuracy_metrics truth pred.
Proof.
  destruct (Nat.le_gt_cases (length pred) (length truth)) as [Hle|Hgt].
  - rewrite accuracy_metrics_scores_rename by assumption.
    now rewrite accuracy_metrics_scores.
  - rewrite !accuracy_metrics_raises; [reflexivity|lia|rewrite !length_map; lia].
Qed.

Lemma accuracy_metrics_renaming_witness :
  accuracy_metrics (map (String.append PURE_TAG) ["A"; "A"; "B"]) (map (String.append PURE_TAG) ["X"; "Y"; "Y"]) =
  accuracy_metrics ["A"; "A"; "B"] ["X"; "Y"; "Y"].
Proof.
  apply accuracy_metrics_renaming; intros x y; apply tag_inj.
Defined.

(** X3: a prediction that equals the ground truth up to an injective renaming
    of the labels is scored like the ground truth itself: PA = 1, and GA = 1
    as soon as two lines share a label (GA = 0 when no two lines do). *)
Theorem perfect_up_to_renaming (g : label -> label) (truth : list label)
    (Hg : injective g) (Hne : truth <> []) :
  exists m, accuracy_metrics truth (map g truth) = Ok m /\
    (PA m == 1)%Q /\
    (~ NoDup truth -> (GA m == 1)%Q) /\
    (NoDup truth -> (GA m == 0)%Q).
Proof.
  eexists. split.
  - rewrite <- (map_id truth) at 1.
    apply accuracy_metrics_scores_rename; [intros x y H; exact H|assumption|lia].
  - rewrite accurate_pairs_diag, events_diag.
    assert (len truth <> 0) as Hn.
    { unfold len. destruct truth; [congruence|simpl; lia]. }
    destruct (scores_perfect (agree_pairs String.eqb truth) (len truth) Hn)
      as (Hpa & Hga1 & Hga0).
    split; [exact Hpa|]. split.
    + intros Hd. apply Hga1. now rewrite agree_pairs_zero_iff.
    + intros Hd. apply Hga0. now apply agree_pairs_zero_iff.
Qed.

Lemma perfect_up_to_renaming_witness :
  (exists m, accuracy_metrics ["A"; "B"; "A"] (map (String.append PURE_TAG) ["A"; "B"; "A"]) = Ok m /\
     (PA m == 1)%Q /\ (GA m == 1)%Q) /\
  (exists m, accuracy_metrics ["A"; "B"] (map (String.append PURE_TAG) ["A"; "B"]) = Ok m /\
     (PA m == 1)%Q /\ (GA m == 0)%Q).
Proof.
  assert (injective (String.append PURE_TAG)) as Hinj by (intros x y; apply tag_inj).
  split.
  - destruct (perfect_up_to_renaming (String.append PURE_TAG) ["A"; "B"; "A"] Hinj)
      as (m & H & Hpa & Hga & _); [discriminate|].
    exists m. split; [exact H|]. split; [exact Hpa|]. apply Hga.
    intros Hnd. inversion Hnd as [|? ? Hin _]; subst.
    apply Hin. right. left. reflexivity.
  - destruct (perfect_up_to_renaming (String.append PURE_TAG) ["A"; "B"] Hinj)
      as (m & H & Hpa & _ & Hga); [discriminate|].
    exists m. split; [exact H|]. split; [exact Hpa|]. apply Hga.
    apply NoDup_cons; [simpl; intros [E|[]]; discriminate E|].
    apply NoDup_cons; [intros []|apply NoDup_nil].
Defined.

(** ** What collapsing does to the scores *)

(** X4: for equal-length inputs collapsing never lowers recall: the merged
    prediction keeps together every pair of lines the prediction kept
    together, and [real_pairs] does not depend on the prediction.  This holds
    whether or not a merged label collides with a predicted one. *)
Theorem collapse_recall_monotone (truth pred : list label)
    (Hlen : length truth = length pred) :
  exists m merged_pred pure_coverage m',
    accuracy_metrics truth pred = Ok m /\
    collapse_pure_clusters truth pred = Ok (merged_pred, pure_coverage) /\
    accuracy_metrics truth merged_pred = Ok m' /\
    (GA_recall m <= GA_recall m')%Q.
Proof.
  do 4 eexists.
  split; [apply accuracy_metrics_scores; lia|].
  split; [apply collapse_pure_clusters_map|].
  split; [apply accuracy_metrics_scores; rewrite length_map; lia|].
  unfold scores. simpl.
  pose proof (agree_pairs_nonneg String.eqb truth) as Hk.
  destruct (Z.eqb_spec (agree_pairs String.eqb truth) 0); [apply Qle_refl|].
  apply true_div_le; [|lia].
  rewrite zip_map_r. apply agree_pairs_map_le.
  intros x y E. unfold pair_eqb in *. simpl.
  apply andb_true_iff in E. destruct E as [E1 E2].
  apply String.eqb_eq in E2. rewrite E1, E2. simpl. apply String.eqb_refl.
Qed.

Lemma collapse_recall_monotone_witness :
  exists m merged_pred pure_coverage m',
    accuracy_metrics ["A"; "B"; "C"] ["X"; "__PURE__#A"; "__PURE__#A"] = Ok m /\
    collapse_pure_clusters ["A"; "B"; "C"] ["X"; "__PURE__#A"; "__PURE__#A"] =
    Ok (merged_pred, pure_coverage) /\
    accuracy_metrics ["A"; "B"; "C"] merged_pred = Ok m' /\
    (GA_recall m <= GA_recall m')%Q.
Proof.
  apply (collapse_recall_monotone ["A"; "B"; "C"] ["X"; "__PURE__#A"; "__PURE__#A"]).
  reflexivity.
Defined.

Lemma finer_refines xs ys : finer xs ys <-> refines (zip xs ys).
Proof.
  unfold finer, refines. split.
  - intros H a b b' H1 H2. apply In_zip_nth in H1, H2.
    destruct H1 as (i & Hi1 & Hi2), H2 as (j & Hj1 & Hj2). eauto.
  - intros H i j x y y' Hi Hj Hi' Hj'.
    apply (H x); apply In_zip_nth; eauto.
Qed.

Lemma refines_pure_for truth pred t p :
  finer pred truth -> In (t, p) (zip truth pred) -> pure_for (zip truth pred) p t.
Proof.
  intros Hf Hin. apply finer_refines in Hf. split; [assumption|].
  intros t' Hin'. apply (Hf p).
  - rewrite (zip_swap truth pred). apply in_map_iff. exists (t', p). now split.
  - rewrite (zip_swap truth pred). apply in_map_iff. exists (t, p). now split.
Qed.

Lemma sum_mask_all_true (m : list bool) :
  Forall (fun b => b = true) m -> sum_mask m = len m.
Proof.
  unfold sum_mask. induction 1 as [|b m -> _ IH]; [reflexivity|].
  cbn [map]. rewrite sum_cons, IH. unfold len. simpl length. lia.
Qed.

(** X5: harmless over-splitting is forgiven completely.  When truth and pred
    have the same non-zero length and every predicted cluster lies inside one
    ground-truth cluster, [collapse_pure_clusters] returns the ground truth
    with every label prefixed by ["__PURE__#"], with pure_coverage = 1, and
    [accuracy_metrics] on that merged prediction gives PA = 1, and GA = 1 as
    soon as two lines share a ground-truth label. *)
Theorem pure_oversplitting_forgiven (truth pred : list label)
    (Hlen : length truth = length pred) (Hne : truth <> [])
    (Hfiner : finer pred truth) :
  exists merged_pred pure_coverage m',
    collapse_pure_clusters truth pred = Ok (merged_pred, pure_coverage) /\
    merged_pred = map (String.append PURE_TAG) truth /\
    (pure_coverage == 1)%Q /\
    accuracy_metrics truth merged_pred = Ok m' /\
    (PA m' == 1)%Q /\
    (~ NoDup truth -> (GA m' == 1)%Q).
Proof.
  assert (forall tp, In tp (zip truth pred) ->
            relabel (gt_by_pred truth pred) (snd tp) = String.append PURE_TAG (fst tp) /\
            is_pure (gt_by_pred truth pred) (snd tp) = true) as Hpure.
  { intros [t p] Hin. apply relabel_pure_for. now apply refines_pure_for. }
  assert (len truth <> 0) as Hn.
  { unfold len. destruct truth; [congruence|simpl; lia]. }
  assert (map (relabel (gt_by_pred truth pred)) pred =
          map (String.append PURE_TAG) truth) as Hmerged.
  { rewrite <- (map_snd_zip truth pred) at 2 by lia.
    rewrite <- (map_fst_zip truth pred) at 3 by lia.
    rewrite !map_map. apply map_ext_in. intros tp Htp. now apply Hpure. }
  do 3 eexists. split; [apply collapse_pure_clusters_map|].
  split; [exact Hmerged|]. split; [|split; [|split]].
  - assert (len pred = len truth) as E by (unfold len; now rewrite Hlen).
    rewrite E. destruct (Z.eqb_spec (len truth) 0); [lia|].
    rewrite sum_mask_all_true.
    + unfold len. rewrite length_map. fold (len pred). rewrite E.
      now apply true_div_self.
    + rewrite <- (map_snd_zip truth pred) at 2 by lia. rewrite map_map.
      apply Forall_map. apply Forall_forall. intros tp Htp. now apply Hpure.
  - rewrite Hmerged. rewrite <- (map_id truth) at 1.
    apply accuracy_metrics_scores_rename;
      [intros x y H; exact H|intros x y; apply tag_inj|lia].
  - rewrite accurate_pairs_diag, events_diag.
    apply (scores_perfect _ _ Hn).
  - rewrite accurate_pairs_diag, events_diag. intros Hd.
    apply (scores_perfect _ _ Hn). now rewrite agree_pairs_zero_iff.
Qed.

Lemma pure_oversplitting_forgiven_witness :
  exists merged_pred pure_coverage m',
    collapse_pure_clusters ["A"; "A"; "B"] ["X"; "Y"; "Z"] =
    Ok (merged_pred, pure_coverage) /\
    merged_pred = ["__PURE__#A"; "__PURE__#A"; "__PURE__#B"] /\
    (pure_coverage == 1)%Q /\
    accuracy_metrics ["A"; "A"; "B"] merged_pred = Ok m' /\
    (PA m' == 1)%Q /\ (GA m' == 1)%Q.
Proof.
  destruct (pure_oversplitting_forgiven ["A"; "A"; "B"] ["X"; "Y"; "Z"])
    as (mp & c & m' & H1 & H2 & H3 & H4 & H5 & H6);
    [reflexivity|discriminate| |].
  - intros [|[|[|i]]] [|[|[|j]]] x y y' Hi Hj Hi' Hj'; simpl in *;
      try congruence; try (destruct i; discriminate); try (destruct j; discriminate).
  - exists mp, c, m'. repeat (split; [assumption|]). apply H6.
    intros Hnd. inversion Hnd as [|? ? Hin _]; subst. apply Hin. left. reflexivity.
Defined.

Lemma In_pred_zip (truth pred : list label) (p : label) :
  (length pred <= length truth)%nat -> In p pred ->
  exists t, In (t, p) (zip truth pred).
Proof.
  intros Hlen Hin. rewrite <- (map_snd_zip truth pred Hlen) in Hin.
  apply in_map_iff in Hin. destruct Hin as ([t q] & E & Hin). simpl in E. subst q.
  eauto.
Qed.

Lemma NoDup_other (s : list label) (t0 : label) :
  NoDup s -> In t0 s -> (forall t, s <> [t]) -> exists t1, In t1 s /\ t1 <> t0.
Proof.
  intros Hnd Hin Hns. destruct s as [|a [|b s]]; [destruct Hin| |].
  - exfalso. now apply (Hns a).
  - inversion Hnd as [|? ? Ha _]; subst.
    label_cases a t0.
    + exists b. split; [right; now left|]. intros ->. apply Ha. now left.
    + exists a. split; [now left|assumption].
Qed.

(** A mixed predicted cluster that holds a line holds lines of two
    ground-truth clusters. *)
Lemma mixed_two_truths truth pred t0 p :
  In (t0, p) (zip truth pred) ->
  is_pure (gt_by_pred truth pred) p = false ->
  exists t1, In (t1, p) (zip truth pred) /\ t1 <> t0.
Proof.
  intros Hin Hmixed. rewrite gt_by_pred_sets_of in Hmixed.
  destruct (sets_of_spec (zip truth pred) p) as [Hnd _].
  destruct (NoDup_other (get_default (sets_of (zip truth pred)) p []) t0 Hnd)
    as (t1 & H1 & Hne).
  - now apply sets_of_members.
  - intros t E. unfold is_pure in Hmixed. rewrite E in Hmixed. discriminate.
  - exists t1. split; [now apply sets_of_members|assumption].
Qed.

(** Under the hypothesis of [FreshTag], relabelling the merged prediction
    once more changes nothing. *)
Lemma relabel_twice truth pred p :
  (length pred <= length truth)%nat ->
  (forall q, In q pred ->
     is_pure (gt_by_pred truth pred) q = false -> String.prefix PURE_TAG q = false) ->
  In p pred ->
  let r := relabel (gt_by_pred truth pred) in
  relabel (gt_by_pred truth (map r pred)) (r p) = r p /\
  is_pure (gt_by_pred truth (map r pred)) (r p) = is_pure (gt_by_pred truth pred) p.
Proof.
  intros Hlen Hfresh Hp r.
  destruct (In_pred_zip truth pred p Hlen Hp) as (t0 & Hin).
  assert (forall t q, In (t, q) (zip truth pred) -> In (t, r q) (zip truth (map r pred)))
    as Himg.
  { intros t q H. rewrite zip_map_r. apply in_map_iff. exists (t, q). now split. }
  destruct (relabel_cases (gt_by_pred truth pred) p) as [(t & Hs & Hr & Hpure)|[Hr Hmixed]].
  - fold r in Hr. rewrite Hr, Hpure.
    rewrite gt_by_pred_sets_of in Hs. apply sets_of_singleton_iff in Hs.
    destruct Hs as [Htp Hall].
    apply relabel_pure_for. split.
    + rewrite <- Hr. now apply Himg.
    + intros t' H'. rewrite zip_map_r in H'. apply in_map_iff in H'.
      destruct H' as ([t1 p1] & E & H1). simpl in E. inversion E; subst t'.
      now apply (relabelled_line truth pred Hfresh t t1 p1).
  - fold r in Hr. rewrite Hr, Hmixed.
    destruct (mixed_two_truths truth pred t0 p Hin Hmixed) as (t1 & H1 & Hne).
    apply relabel_not_pure. intros t [_ Hall].
    apply Hne. rewrite (Hall t0), (Hall t1); [reflexivity| |].
    + rewrite <- Hr. now apply Himg.
    + rewrite <- Hr. now apply Himg.
Qed.

(** X6: collapsing is idempotent when no mixed predicted cluster carries a
    label that starts with ["__PURE__#"]: for equal-length inputs, collapsing
    the merged prediction again returns the same merged prediction and the
    same pure_coverage. *)
Theorem collapse_idempotent_fresh (truth pred : list label)
    (Hlen : length truth = length pred)
    (Hfresh : forall q, In q pred ->
       is_pure (gt_by_pred truth pred) q = false -> String.prefix PURE_TAG q = false) :
  exists merged_pred pure_coverage,
    collapse_pure_clusters truth pred = Ok (merged_pred, pure_coverage) /\
    collapse_pure_clusters truth merged_pred = Ok (merged_pred, pure_coverage).
Proof.
  do 2 eexists. split; [apply collapse_pure_clusters_map|].
  rewrite collapse_pure_clusters_map.
  assert (forall p, In p pred ->
            relabel (gt_by_pred truth (map (relabel (gt_by_pred truth pred)) pred))
                    (relabel (gt_by_pred truth pred) p) =
            relabel (gt_by_pred truth pred) p /\
            is_pure (gt_by_pred truth (map (relabel (gt_by_pred truth pred)) pred))
                    (relabel (gt_by_pred truth pred) p) =
            is_pure (gt_by_pred truth pred) p) as Htwice.
  { intros p Hp. apply relabel_twice; [lia|assumption|assumption]. }
  f_equal. f_equal.
  - rewrite map_map. apply map_ext_in. intros p Hp. now apply Htwice.
  - assert (len (map (relabel (gt_by_pred truth pred)) pred) = len pred) as ->
      by (unfold len; now rewrite length_map).
    rewrite map_map.
    rewrite (map_ext_in _ (is_pure (gt_by_pred truth pred)));
      [reflexivity|]. intros p Hp. now apply Htwice.
Qed.

Lemma collapse_idempotent_fresh_witness :
  exists merged_pred pure_coverage,
    collapse_pure_clusters ["A"; "A"; "B"; "C"] ["X"; "Y"; "Z"; "Z"] =
    Ok (merged_pred, pure_coverage) /\
    collapse_pure_clusters ["A"; "A"; "B"; "C"] merged_pred =
    Ok (merged_pred, pure_coverage).
Proof.
  apply (collapse_idempotent_fresh ["A"; "A"; "B"; "C"] ["X"; "Y"; "Z"; "Z"]);
    [reflexivity|].
  intros q [<-|[<-|[<-|[<-|[]]]]] _; reflexivity.
Defined.

(** X7: for equal-length inputs the comparison step of [run_all] raises
    nothing: not the [ValueError] of the length check, no [IndexError] or
    [KeyError] of a subscript, and no [ZeroDivisionError] of one of its
    divisions.  Its strict metrics are those of
    [accuracy_metrics(truth, pred)], its friendly metrics those of
    [accuracy_metrics] on the merged prediction, its purities those of
    [purity_metric], and each of the eleven reported values lies in
    [[0, 1]]. *)
Theorem compare_pair_equal_lengths (truth pred : list label)
    (Hlen : length truth = length pred) :
  exists c merged_pred,
    Raising.compare_pair truth pred = Ok c /\
    Raising.accuracy_metrics truth pred = Ok (strict c) /\
    Raising.collapse_pure_clusters truth pred = Ok (merged_pred, pureCoverage c) /\
    Raising.accuracy_metrics truth merged_pred = Ok (friendly c) /\
    Raising.purity_metric pred truth = Ok (predPure c) /\
    Raising.purity_metric truth pred = Ok (gtPure c) /\
    Forall in_unit
      [GA (strict c); GA_precision (strict c); GA_recall (strict c); PA (strict c);
       predPure c; gtPure c;
       GA (friendly c); GA_precision (friendly c); GA_recall (friendly c);
       PA (friendly c); pureCoverage c].
Proof.
  destruct (accuracy_metrics_unit truth pred Hlen) as (m & Hm & U1 & U2 & U3 & U4).
  pose proof (collapse_pure_clusters_map truth pred) as Hc. cbv zeta in Hc.
  set (merged := map (relabel (gt_by_pred truth pred)) pred) in *.
  assert (length truth = length merged) as Hlen'
    by (unfold merged; rewrite length_map; exact Hlen).
  destruct (accuracy_metrics_unit truth merged Hlen') as (m' & Hm' & V1 & V2 & V3 & V4).
  set (cov := if len pred =? 0 then 0%Q
              else true_div (sum_mask (map (is_pure (gt_by_pred truth pred)) pred))
                            (len pred)) in *.
  exists (Comparison m (purity_metric pred truth) (purity_metric truth pred) m' cov).
  exists merged. cbn [strict friendly predPure gtPure pureCoverage].
  rewrite raising_compare_pair, !raising_accuracy_metrics,
    raising_collapse_pure_clusters, !raising_purity_metric.
  split; [|split; [exact Hm|split; [exact Hc|split; [exact Hm'|]]]].
  - unfold compare_pair.
    assert ((len truth =? len pred) = true) as ->
      by (apply Z.eqb_eq; unfold len; now rewrite Hlen).
    cbn [negb]. rewrite Hm. cbn [bind]. rewrite Hc. cbn [bind]. rewrite Hm'.
    reflexivity.
  - split; [reflexivity|]. split; [reflexivity|].
    repeat (apply Forall_cons;
            [first [assumption|apply purity_metric_unit
                   |unfold cov; apply pure_coverage_unit]|]).
    apply Forall_nil.
Qed.

Lemma compare_pair_equal_lengths_witness :
  exists c merged_pred,
    Raising.compare_pair ["A"; "A"; "B"] ["X"; "Y"; "Y"] = Ok c /\
    Raising.accuracy_metrics ["A"; "A"; "B"] ["X"; "Y"; "Y"] = Ok (strict c) /\
    Raising.collapse_pure_clusters ["A"; "A"; "B"] ["X"; "Y"; "Y"] =
    Ok (merged_pred, pureCoverage c) /\
    Raising.accuracy_metrics ["A"; "A"; "B"] merged_pred = Ok (friendly c) /\
    Raising.purity_metric ["X"; "Y"; "Y"] ["A"; "A"; "B"] = Ok (predPure c) /\
    Raising.purity_metric ["A"; "A"; "B"] ["X"; "Y"; "Y"] = Ok (gtPure c) /\
    Forall in_unit
      [GA (strict c); GA_precision (strict c); GA_recall (strict c); PA (strict c);
       predPure c; gtPure c;
       GA (friendly c); GA_precision (friendly c); GA_recall (friendly c);
       PA (friendly c); pureCoverage c].
Proof.
  apply (compare_pair_equal_lengths ["A"; "A"; "B"] ["X"; "Y"; "Y"]). reflexivity.
Defined.

(** ** When purity is 1 *)

Lemma bucket_snoc w b o b' :
  bucket (w ++ [(b', o)]) b = bucket w b ++ (if String.eqb b b' then [o] else []).
Proof.
  unfold bucket. rewrite filter_app, map_app. simpl.
  destruct (String.eqb b b'); reflexivity.
Qed.

Lemma In_bucket w b o : In o (bucket w b) <-> In (b, o) w.
Proof.
  unfold bucket. rewrite in_map_iff. split.
  - intros ([b' o'] & E & Hin). apply filter_In in Hin. destruct Hin as [Hin Hb].
    simpl in *. apply String.eqb_eq in Hb. now subst.
  - intros H. exists (b, o). split; [reflexivity|].
    apply filter_In. split; [assumption|apply String.eqb_refl].
Qed.

Lemma get_table_of w b :
  get (table_of w) b =
  match bucket w b with [] => None | _ :: _ => Some (Counter (bucket w b)) end.
Proof.
  induction w as [|[b' o] w IH] using rev_ind; [reflexivity|].
  rewrite table_of_snoc, bucket_snoc, get_upsert. label_cases b b'.
  - rewrite IH, Counter_snoc. destruct (bucket w b') eqn:E.
    + reflexivity.
    + reflexivity.
  - rewrite IH, app_nil_r. reflexivity.
Qed.

Lemma NoDup_keys_table_of w : NoDup (keys (table_of w)).
Proof.
  induction w as [|[b o] w IH] using rev_ind; [constructor|].
  rewrite table_of_snoc. now apply NoDup_keys_upsert.
Qed.

Lemma In_table_of w b c :
  In (b, c) (table_of w) -> c = Counter (bucket w b) /\ bucket w b <> [].
Proof.
  intros H. apply In_get in H; [|apply NoDup_keys_table_of].
  rewrite get_table_of in H. destruct (bucket w b); [discriminate|].
  inversion H. split; [reflexivity|discriminate].
Qed.

Lemma max_or_0_eq_sum (xs : list Z) :
  Forall (fun n => 1 <= n) xs ->
  (max_or_0 xs = sum xs <-> (length xs <= 1)%nat).
Proof.
  intros H. destruct H as [|x xs Hx H]; [cbn; split; [lia|reflexivity]|].
  destruct H as [|y ys Hy H].
  - cbn. split; lia.
  - simpl. split; [|lia]. rewrite !sum_cons.
    assert (Forall (fun n => 0 <= n) ys) as H0
      by (eapply Forall_impl; [|exact H]; simpl; lia).
    pose proof (fold_max_bounds ys (Z.max x y) H0). lia.
Qed.

Lemma dsum_eq_termwise {V : Type} (F G : V -> Z) (d : dict V) :
  Forall (fun kv => F (snd kv) <= G (snd kv)) d ->
  dsum F d = dsum G d ->
  Forall (fun kv => F (snd kv) = G (snd kv)) d.
Proof.
  unfold dsum, values. induction 1 as [|kv d H Hd IH]; [constructor|].
  cbn [map]. rewrite !sum_cons. intros E.
  pose proof (dsum_le F G d Hd) as Hle. unfold dsum, values in Hle.
  constructor; [lia|]. apply IH. lia.
Qed.

Lemma true_div_eq_1 (a n : Z) : n <> 0 -> ((true_div a n == 1)%Q <-> a = n).
Proof.
  intros Hn. assert (~ (inject_Z n == 0)%Q) as Hn'.
  { intros E. apply Hn. unfold Qeq in E. simpl in E. lia. }
  split.
  - intros E. unfold true_div in E.
    assert (inject_Z a == inject_Z n)%Q as E'.
    { rewrite <- (Qmult_div_r (inject_Z a) (inject_Z n) Hn'), E. ring. }
    unfold Qeq in E'. simpl in E'. lia.
  - intros ->. now apply true_div_self.
Qed.

(** Every row of the table has one column exactly when the first labelling
    refines the second. *)
Lemma table_rows_single_iff w :
  Forall (fun kv : label * dict Z => (length (snd kv) <= 1)%nat) (table_of w) <->
  refines w.
Proof.
  split.
  - intros H a b b' Hb Hb'. rewrite Forall_forall in H.
    destruct (get (table_of w) a) as [c|] eqn:E.
    2:{ rewrite get_table_of in E. apply In_bucket in Hb.
        destruct (bucket w a); [destruct Hb|discriminate]. }
    apply get_In in E. pose proof (H _ E) as Hlen.
    apply In_table_of in E. destruct E as [-> _]. simpl in Hlen.
    apply In_bucket, In_keys_Counter in Hb, Hb'.
    unfold keys in *. destruct (Counter (bucket w a)) as [|[k n] [|kv c]];
      simpl in *; try lia; try contradiction.
    destruct Hb as [<-|[]], Hb' as [<-|[]]. reflexivity.
  - intros H. apply Forall_forall. intros [a c] Hin.
    apply In_table_of in Hin. destruct Hin as [-> Hne]. simpl.
    destruct (bucket w a) as [|b0 g] eqn:E; [congruence|].
    rewrite (Counter_const b0); [simpl; lia|discriminate|].
    apply Forall_forall. intros x Hx. rewrite <- E in Hx.
    apply (H a); apply In_bucket; [rewrite E; now left|assumption].
Qed.

(** X8: when both sequences are non-empty, [purity_metric(base, other)] is 1
    exactly when every [base] cluster lies inside one [other] cluster, that
    is when two lines with the same [base] label always have the same [other]
    label (among the lines both sequences have). *)
Theorem purity_one_iff (base_ids other_ids : list label)
    (Hb : base_ids <> []) (Ho : other_ids <> []) :
  (purity_metric base_ids other_ids == 1)%Q <-> finer base_ids other_ids.
Proof.
  rewrite finer_refines, <- table_rows_single_iff.
  unfold purity_metric. change (base_to_other base_ids other_ids)
    with (table_of (zip base_ids other_ids)).
  set (w := zip base_ids other_ids).
  rewrite purity_sums_dsum, total_table.
  assert (len w <> 0) as Hn.
  { unfold w, len, zip. destruct base_ids, other_ids; simpl; congruence || lia. }
  destruct (Z.eqb_spec (len w) 0); [lia|].
  rewrite true_div_eq_1 by assumption. rewrite <- (total_table w).
  assert (Forall (fun kv : label * dict Z => Forall (fun n => 1 <= n) (values (snd kv)))
                 (table_of w)) as Hpos by apply table_values_pos.
  split.
  - intros E. apply dsum_eq_termwise in E.
    + rewrite Forall_forall in *. intros kv Hkv.
      specialize (E kv Hkv). specialize (Hpos kv Hkv). simpl in E.
      apply max_or_0_eq_sum in E; [|assumption].
      unfold values in E. now rewrite length_map in E.
    + eapply Forall_impl; [|exact Hpos]. intros kv Hkv. simpl.
      apply max_or_0_bounds. eapply Forall_impl; [|exact Hkv]. simpl. lia.
  - intros H. apply dsum_ext. rewrite Forall_forall in *. intros kv Hkv.
    apply max_or_0_eq_sum; [now apply Hpos|].
    unfold values. rewrite length_map. now apply H.
Qed.

Lemma purity_one_iff_witness :
  (purity_metric ["X"; "Y"; "Z"] ["A"; "A"; "B"] == 1)%Q /\
  ~ (purity_metric ["X"; "X"] ["A"; "B"] == 1)%Q.
Proof.
  split.
  - apply (purity_one_iff ["X"; "Y"; "Z"] ["A"; "A"; "B"]); try discriminate.
    intros [|[|[|i]]] [|[|[|j]]] x y y' Hi Hj Hi' Hj'; simpl in *;
      try congruence; try (destruct i; discriminate); try (destruct j; discriminate).
  - intros H.
    apply (purity_one_iff ["X"; "X"] ["A"; "B"]) in H; try discriminate.
    specialize (H 0%nat 1%nat "X" "A" "B" eq_refl eq_refl eq_refl eq_refl).
    discriminate H.
Defined.

Lemma sum_mask_eq_len (m : list bool) :
  sum_mask m = len m <-> Forall (fun b => b = true) m.
Proof.
  split; [|apply sum_mask_all_true].
  induction m as [|b m IH]; [constructor|].
  unfold sum_mask in *. cbn [map]. rewrite sum_cons.
  pose proof (sum_mask_bounds m) as Hb. unfold sum_mask in Hb.
  unfold len in *. simpl length. intros E.
  destruct b; [|lia]. constructor; [reflexivity|]. apply IH. lia.
Qed.

Lemma is_pure_pure_for truth pred p :
  is_pure (gt_by_pred truth pred) p = true ->
  exists t, pure_for (zip truth pred) p t.
Proof.
  intros H.
  destruct (relabel_cases (gt_by_pred truth pred) p) as [(t & Hs & _)|[_ E]];
    [|congruence].
  exists t. apply sets_of_singleton_iff. now rewrite <- gt_by_pred_sets_of.
Qed.

(** X9: for equal-length, non-empty inputs, pure_coverage is 1 exactly when
    every predicted cluster lies inside one ground-truth cluster (two lines
    with the same predicted label always have the same ground-truth label). *)
Theorem pure_coverage_one_iff (truth pred : list label)
    (Hlen : length truth = length pred) (Hne : pred <> []) :
  exists merged_pred pure_coverage,
    collapse_pure_clusters truth pred = Ok (merged_pred, pure_coverage) /\
    ((pure_coverage == 1)%Q <-> finer pred truth).
Proof.
  do 2 eexists. split; [apply collapse_pure_clusters_map|].
  assert (len pred <> 0) as Hn.
  { unfold len. destruct pred; [congruence|simpl; lia]. }
  destruct (Z.eqb_spec (len pred) 0); [lia|].
  rewrite true_div_eq_1 by assumption.
  replace (len pred) with (len (map (is_pure (gt_by_pred truth pred)) pred))
    by (unfold len; now rewrite length_map).
  rewrite sum_mask_eq_len, Forall_map, Forall_forall. split.
  - intros H. apply finer_refines. intros p t t' Ht Ht'.
    rewrite (zip_swap truth pred) in Ht, Ht'.
    apply in_map_iff in Ht, Ht'.
    destruct Ht as ([t1 p1] & E1 & H1), Ht' as ([t2 p2] & E2 & H2).
    simpl in *. inversion E1; inversion E2; subst.
    destruct (is_pure_pure_for truth pred p) as (x & _ & Hall).
    + apply H. now apply in_combine_r in H1.
    + now rewrite (Hall t), (Hall t').
  - intros Hf p Hp. destruct (In_pred_zip truth pred p) as (t & Hin);
      [lia|assumption|].
    now apply (relabel_pure_for truth pred p t), refines_pure_for.
Qed.

Lemma pure_coverage_one_iff_witness :
  (exists merged_pred pure_coverage,
     collapse_pure_clusters ["A"; "A"; "B"] ["X"; "Y"; "Z"] =
     Ok (merged_pred, pure_coverage) /\ (pure_coverage == 1)%Q) /\
  (exists merged_pred pure_coverage,
     collapse_pure_clusters ["A"; "B"] ["X"; "X"] =
     Ok (merged_pred, pure_coverage) /\ ~ (pure_coverage == 1)%Q).
Proof.
  split.
  - destruct (pure_coverage_one_iff ["A"; "A"; "B"] ["X"; "Y"; "Z"])
      as (mp & c & H & Hiff); [reflexivity|discriminate|].
    exists mp, c. split; [exact H|]. apply Hiff.
    intros [|[|[|i]]] [|[|[|j]]] x y y' Hi Hj Hi' Hj'; simpl in *;
      try congruence; try (destruct i; discriminate); try (destruct j; discriminate).
  - destruct (pure_coverage_one_iff ["A"; "B"] ["X"; "X"])
      as (mp & c & H & Hiff); [reflexivity|discriminate|].
    exists mp, c. split; [exact H|]. intros E. apply Hiff in E.
    specialize (E 0%nat 1%nat "X" "A" "B" eq_refl eq_refl eq_refl eq_refl).
    discriminate E.
Defined.

(** ** [get_ground_truth] *)

Lemma prefix_spec (p s : string) :
  String.prefix p s = true <-> exists b, s = String.append p b.
Proof.
  revert s. induction p as [|c p IH]; intros s.
  - split; [intros _; exists s; reflexivity|intros _; destruct s; reflexivity].
  - destruct s as [|d s]; simpl.
    + split; [discriminate|intros (b & H); discriminate H].
    + destruct (Ascii.ascii_dec c d) as [->|Hne].
      * rewrite IH. split; intros (b & H); exists b; [now rewrite H|now inversion H].
      * split; [discriminate|intros (b & H); inversion H; congruence].
Qed.

Lemma endswith_spec (s suffix : string) :
  endswith s suffix = true <-> exists pre, s = String.append pre suffix.
Proof.
  induction s as [|c s IH]; cbn [endswith].
  - rewrite orb_false_r, String.eqb_eq. split.
    + intros <-. exists EmptyString. reflexivity.
    + intros ([|d pre] & H); simpl in H; [assumption|discriminate H].
  - rewrite orb_true_iff, String.eqb_eq, IH. split.
    + intros [<-|(pre & ->)]; [exists EmptyString|exists (String c pre)]; reflexivity.
    + intros ([|d pre] & H); simpl in H; [left; assumption|].
      right. inversion H. eauto.
Qed.

Lemma contains_spec (s sub : string) :
  contains s sub = true <->
  exists a b, s = String.append a (String.append sub b).
Proof.
  induction s as [|c s IH].
  - cbn [contains]. rewrite orb_false_r, prefix_spec. split.
    + intros (b & H). exists EmptyString, b. exact H.
    + intros ([|d a] & b & H); simpl in H; [eauto|discriminate H].
  - cbn [contains]. rewrite orb_true_iff, prefix_spec, IH. split.
    + intros [(b & H)|(a & b & ->)]; [exists EmptyString, b; exact H|].
      exists (String c a), b. reflexivity.
    + intros ([|d a] & b & H); simpl in H; [left; eauto|].
      right. inversion H. eauto.
Qed.

Lemma string_compare_refl (s : string) : String.compare s s = Eq.
Proof.
  induction s as [|c s IH]; simpl; [reflexivity|].
  unfold Ascii.compare. now rewrite N.compare_refl.
Qed.

Lemma string_compare_lt_trans (a b c : string) :
  String.compare a b = Lt -> String.compare b c = Lt -> String.compare a c = Lt.
Proof.
  revert b c. induction a as [|x a IH]; intros [|y b] [|z c]; simpl;
    try discriminate; try reflexivity.
  unfold Ascii.compare.
  destruct (N.compare_spec (Ascii.N_of_ascii x) (Ascii.N_of_ascii y)) as [E1|L1|G1];
    try discriminate;
    destruct (N.compare_spec (Ascii.N_of_ascii y) (Ascii.N_of_ascii z)) as [E2|L2|G2];
    try discriminate; intros H1 H2.
  - rewrite E1, E2, N.compare_refl. now apply (IH b c).
  - rewrite E1. now apply N.compare_lt_iff in L2 as ->.
  - rewrite <- E2. now apply N.compare_lt_iff in L1 as ->.
  - assert (Ascii.N_of_ascii x < Ascii.N_of_ascii z)%N as L by (eapply N.lt_trans; eauto).
    now apply N.compare_lt_iff in L as ->.
Qed.

Lemma key_ltb_irrefl k : key_ltb k k = false.
Proof.
  unfold key_ltb. rewrite Bool.eqb_reflx. unfold String.ltb.
  now rewrite string_compare_refl.
Qed.

Lemma key_ltb_trans k1 k2 k3 :
  key_ltb k1 k2 = true -> key_ltb k2 k3 = true -> key_ltb k1 k3 = true.
Proof.
  destruct k1 as [b1 s1], k2 as [b2 s2], k3 as [b3 s3]. unfold key_ltb, String.ltb.
  simpl. destruct b1, b2, b3; simpl; try discriminate; try reflexivity;
    destruct (String.compare s1 s2) eqn:E1; try discriminate;
    destruct (String.compare s2 s3) eqn:E2; try discriminate;
    now rewrite (string_compare_lt_trans s1 s2 s3).
Qed.

Lemma sort_key_tie x y :
  key_ltb (sort_key x) (sort_key y) = false ->
  key_ltb (sort_key y) (sort_key x) = false -> x = y.
Proof.
  unfold key_ltb, sort_key, String.ltb. simpl.
  destruct (contains x "corrected"), (contains y "corrected"); simpl;
    try discriminate;
    rewrite (String.compare_antisym y x);
    destruct (String.compare x y) eqn:E; simpl; try discriminate;
    intros _ _; now apply String.compare_eq_iff.
Qed.

Lemma In_insert_sorted a l x : In x (insert_sorted a l) <-> x = a \/ In x l.
Proof.
  induction l as [|y l IH]; simpl; [intuition|].
  destruct (key_ltb (sort_key a) (sort_key y)); simpl; [intuition|].
  rewrite IH. intuition.
Qed.

Lemma In_sorted_from xs acc x :
  In x (fold_left (fun acc x => insert_sorted x acc) xs acc) <-> In x xs \/ In x acc.
Proof.
  revert acc. induction xs as [|a xs IH]; intros acc; simpl; [intuition|].
  rewrite IH, In_insert_sorted. intuition.
Qed.

Lemma In_sorted_by_key xs x : In x (sorted_by_key xs) <-> In x xs.
Proof. unfold sorted_by_key. rewrite In_sorted_from. simpl. intuition. Qed.

Lemma least_first_insert a l : least_first l -> least_first (insert_sorted a l).
Proof.
  destruct l as [|h r]; simpl.
  - intros _ y [<-|[]]. apply key_ltb_irrefl.
  - intros H. destruct (key_ltb (sort_key a) (sort_key h)) eqn:E; simpl.
    + intros y [<-|Hy]; [apply key_ltb_irrefl|].
      destruct (key_ltb (sort_key y) (sort_key a)) eqn:E'; [|reflexivity].
      rewrite <- (H y Hy). symmetry. now apply (key_ltb_trans _ (sort_key a)).
    + intros y [<-|Hy]; [apply key_ltb_irrefl|].
      apply In_insert_sorted in Hy. destruct Hy as [->|Hy]; [assumption|].
      apply H. now right.
Qed.

Lemma least_first_sorted xs : least_first (sorted_by_key xs).
Proof.
  unfold sorted_by_key.
  enough (forall acc, least_first acc ->
            least_first (fold_left (fun acc x => insert_sorted x acc) xs acc)) as H
    by (apply H; exact I).
  induction xs as [|a xs IH]; intros acc Hacc; simpl; [assumption|].
  apply IH. now apply least_first_insert.
Qed.

(** What [get_ground_truth] returns: a candidate of the listing that no
    candidate precedes in key order. *)
Lemma get_ground_truth_Some globbed c :
  get_ground_truth globbed = Some c <->
  In c globbed /\ is_candidate c = true /\
  forall y, In y globbed -> is_candidate y = true ->
    key_ltb (sort_key y) (sort_key c) = false.
Proof.
  unfold get_ground_truth.
  pose proof (least_first_sorted (filter is_candidate globbed)) as Hleast.
  pose proof (In_sorted_by_key (filter is_candidate globbed)) as Hin.
  destruct (sorted_by_key (filter is_candidate globbed)) as [|h r]; simpl in *.
  - split; [discriminate|]. intros (Hc & Hcand & _).
    exfalso. apply (Hin c). apply filter_In. now split.
  - assert (In h globbed /\ is_candidate h = true) as [Hh Hhc]
      by (apply filter_In, Hin; now left).
    assert (forall y, In y globbed -> is_candidate y = true ->
              key_ltb (sort_key y) (sort_key h) = false) as Hmin.
    { intros y Hy Hyc. apply Hleast. apply Hin. apply filter_In. now split. }
    split.
    + intros E. inversion E; subst c. auto.
    + intros (Hc & Hcc & Hcmin). f_equal. apply sort_key_tie; auto.
Qed.

Lemma get_ground_truth_None globbed :
  get_ground_truth globbed = None <->
  forall y, In y globbed -> is_candidate y = false.
Proof.
  unfold get_ground_truth.
  pose proof (In_sorted_by_key (filter is_candidate globbed)) as Hin.
  destruct (sorted_by_key (filter is_candidate globbed)) as [|h r]; simpl in *.
  - split; [|reflexivity]. intros _ y Hy.
    destruct (is_candidate y) eqn:E; [|reflexivity].
    exfalso. apply (Hin y). apply filter_In. now split.
  - split; [discriminate|]. intros H.
    assert (In h globbed /\ is_candidate h = true) as [Hh Hhc]
      by (apply filter_In, Hin; now left).
    rewrite (H h Hh) in Hhc. discriminate.
Qed.

(** X10: [get_ground_truth] raises [FileNotFoundError] exactly when no listed
    name ends with ["_structured_corrected.csv"] or ["_structured.csv"].
    Otherwise it returns a listed name with one of these endings; the name
    contains ["corrected"] whenever a listed candidate does, and among the
    candidates that agree with it on containing ["corrected"] none is
    smaller in code-point order. *)
Theorem get_ground_truth_choice (globbed : list string) :
  (get_ground_truth globbed = None <->
   forall y, In y globbed -> is_candidate y = false) /\
  (forall c, get_ground_truth globbed = Some c ->
     In c globbed /\ is_candidate c = true /\
     (forall y, In y globbed -> is_candidate y = true ->
        contains y "corrected" = true -> contains c "corrected" = true) /\
     (forall y, In y globbed -> is_candidate y = true ->
        contains y "corrected" = contains c "corrected" ->
        String.ltb y c = false)).
Proof.
  split; [apply get_ground_truth_None|].
  intros c H. apply get_ground_truth_Some in H. destruct H as (Hc & Hcc & Hmin).
  split; [assumption|]. split; [assumption|]. split.
  - intros y Hy Hyc Hcorr. specialize (Hmin y Hy Hyc).
    unfold key_ltb, sort_key in Hmin. simpl in Hmin. rewrite Hcorr in Hmin.
    destruct (contains c "corrected"); [reflexivity|discriminate Hmin].
  - intros y Hy Hyc Hsame. specialize (Hmin y Hy Hyc).
    unfold key_ltb, sort_key in Hmin. simpl in Hmin. rewrite Hsame in Hmin.
    now rewrite Bool.eqb_reflx in Hmin.
Qed.

Lemma get_ground_truth_choice_witness :
  get_ground_truth ["notes.csv"; "Apache_2k.log_templates.csv"] = None /\
  contains "Apache_2k.log_structured_corrected.csv" "corrected" = true /\
  String.ltb "Linux_2k.log_structured.csv" "Apache_2k.log_structured.csv" = false.
Proof.
  destruct (get_ground_truth_choice ["notes.csv"; "Apache_2k.log_templates.csv"])
    as [Hnone _].
  destruct (get_ground_truth_choice
              ["Apache_2k.log_structured.csv"; "Apache_2k.log_structured_corrected.csv"])
    as [_ Hsome].
  destruct (Hsome "Apache_2k.log_structured_corrected.csv" eq_refl)
    as (_ & _ & Hcorr & _).
  destruct (get_ground_truth_choice
              ["Linux_2k.log_structured.csv"; "Apache_2k.log_structured.csv"])
    as [_ Hsome'].
  destruct (Hsome' "Apache_2k.log_structured.csv" eq_refl) as (_ & _ & _ & Hmin).
  split; [|split].
  - apply Hnone. intros y [<-|[<-|[]]]; reflexivity.
  - apply (Hcorr "Apache_2k.log_structured_corrected.csv");
      [right; left; reflexivity|reflexivity|reflexivity].
  - apply (Hmin "Linux_2k.log_structured.csv");
      [left; reflexivity|reflexivity|reflexivity].
Defined.

(** X11: the choice of [get_ground_truth] depends only on which names the
    directory listing holds, not on the order (or the multiplicity) in which
    [glob] yields them. *)
Theorem get_ground_truth_order_independent (globbed globbed' : list string)
    (Hsame : forall x, In x globbed <-> In x globbed') :
  get_ground_truth globbed = get_ground_truth globbed'.
Proof.
  destruct (get_ground_truth globbed) as [c|] eqn:E; symmetry.
  - apply get_ground_truth_Some in E. destruct E as (Hc & Hcc & Hmin).
    apply get_ground_truth_Some. split; [now apply Hsame|]. split; [assumption|].
    intros y Hy. apply Hmin. now apply Hsame.
  - apply get_ground_truth_None. intros y Hy.
    rewrite get_ground_truth_None in E. apply E. now apply Hsame.
Qed.

Lemma get_ground_truth_order_independent_witness :
  get_ground_truth ["b_structured.csv"; "a_structured.csv"] =
  get_ground_truth ["a_structured.csv"; "b_structured.csv"; "a_structured.csv"].
Proof.
  apply get_ground_truth_order_independent. intros x. simpl. intuition.
Defined.

(** ** [run_all] *)

Lemma compare_pair_cases (truth pred : list label) :
  (length truth = length pred /\ exists c, compare_pair truth pred = Ok c) \/
  (length truth <> length pred /\ compare_pair truth pred = Raise ValueError).
Proof.
  destruct (Nat.eq_dec (length truth) (length pred)) as [E|Hne].
  - left. split; [assumption|].
    destruct (accuracy_metrics_unit truth pred E) as (m & Hm & _).
    pose proof (collapse_pure_clusters_map truth pred) as Hc. cbv zeta in Hc.
    destruct (accuracy_metrics_unit truth (map (relabel (gt_by_pred truth pred)) pred))
      as (m' & Hm' & _); [now rewrite length_map|].
    unfold compare_pair.
    assert ((len truth =? len pred) = true) as ->
      by (apply Z.eqb_eq; unfold len; now rewrite E).
    cbn [negb]. rewrite Hm. cbn [bind]. rewrite Hc. cbn [bind]. rewrite Hm'.
    cbn [bind]. eauto.
  - right. split; [assumption|]. unfold compare_pair.
    destruct (Z.eqb_spec (len truth) (len pred)) as [E|E]; [|reflexivity].
    unfold len in E. lia.
Qed.

Section RunAllFacts.
Variables Setting LoadError : Type.
Variable bench_settings : string -> string -> option Setting.
Variable dataset_exists : string -> bool.
Variable load : string -> string -> Setting -> LoadError + (list label * list label).

Local Abbreviation rows_of_dataset method :=
  (fun dataset =>
     match bench_settings method dataset with
     | Some setting =>
         if dataset_exists dataset then [run_one load method dataset setting] else []
     | None => []
     end).

Local Abbreviation rows_of_method datasets :=
  (fun method =>
     if existsb (String.eqb method) RUNNERS
     then flat_map (rows_of_dataset method) datasets
     else []).

Lemma dataset_loop method datasets results :
  fold_left (dataset_body bench_settings dataset_exists load method) datasets results =
  results ++ flat_map (rows_of_dataset method) datasets.
Proof.
  revert results. induction datasets as [|d ds IH]; intros results; simpl.
  - now rewrite app_nil_r.
  - rewrite IH. unfold dataset_body.
    destruct (bench_settings method d) as [setting|]; [|reflexivity].
    destruct (dataset_exists d); simpl; [now rewrite <- app_assoc|reflexivity].
Qed.

Lemma method_loop datasets methods results :
  fold_left (method_body bench_settings dataset_exists load datasets) methods results =
  results ++ flat_map (rows_of_method datasets) methods.
Proof.
  revert results. induction methods as [|m ms IH]; intros results;
    cbn [fold_left flat_map].
  - now rewrite app_nil_r.
  - rewrite IH. unfold method_body.
    destruct (existsb (String.eqb m) RUNNERS); cbn [negb]; [|reflexivity].
    now rewrite dataset_loop, <- app_assoc.
Qed.

Lemma run_all_flat_map datasets methods :
  run_all bench_settings dataset_exists load datasets methods =
  flat_map (rows_of_method datasets) methods.
Proof. unfold run_all. now rewrite method_loop. Qed.

Lemma run_one_key method dataset setting :
  row_method (run_one load method dataset setting) = method /\
  row_dataset (run_one load method dataset setting) = dataset.
Proof.
  unfold run_one. destruct (load method dataset setting) as [e|[truth pred]];
    [split; reflexivity|].
  destruct (compare_pair truth pred); split; reflexivity.
Qed.

Lemma rows_of_dataset_keys method datasets :
  existsb (String.eqb method) RUNNERS = true ->
  map (fun r => (row_method r, row_dataset r))
      (flat_map (rows_of_dataset method) datasets) =
  filter (runnable bench_settings dataset_exists) (map (pair method) datasets).
Proof.
  intros Hm. induction datasets as [|d ds IH]; [reflexivity|].
  cbn [flat_map map filter]. rewrite map_app, IH. unfold runnable at 2.
  cbn [fst snd]. rewrite Hm. cbn [andb].
  destruct (bench_settings method d) as [setting|]; [|reflexivity].
  destruct (dataset_exists d); [|reflexivity].
  cbn [map app]. destruct (run_one_key method d setting) as [-> ->]. reflexivity.
Qed.

Lemma not_runner_not_runnable method datasets :
  existsb (String.eqb method) RUNNERS = false ->
  filter (runnable bench_settings dataset_exists) (map (pair method) datasets) = [].
Proof.
  intros Hm. induction datasets as [|d ds IH]; [reflexivity|].
  cbn [map filter]. unfold runnable at 1. cbn [fst snd]. now rewrite Hm.
Qed.

(** X12: [run_all] appends exactly one row for every (method, dataset) pair
    whose method is a key of [runners], whose dataset has a benchmark setting
    for that method and whose dataset folder exists, and no other row; the
    rows come method by method and, within a method, dataset by dataset.  A
    method that is not a runner, such as the disabled ["SLCT"], never gets a
    row. *)
Theorem run_all_rows (datasets methods : list string) :
  map (fun r => (row_method r, row_dataset r))
      (run_all bench_settings dataset_exists load datasets methods) =
  filter (runnable bench_settings dataset_exists) (list_prod methods datasets) /\
  forall r, In r (run_all bench_settings dataset_exists load datasets methods) ->
    row_method r <> "SLCT".
Proof.
  assert (map (fun r => (row_method r, row_dataset r))
              (run_all bench_settings dataset_exists load datasets methods) =
          filter (runnable bench_settings dataset_exists) (list_prod methods datasets))
    as Hkeys.
  { rewrite run_all_flat_map.
    induction methods as [|m ms IH]; [reflexivity|].
    cbn [flat_map list_prod]. rewrite map_app, filter_app, IH. f_equal.
    destruct (existsb (String.eqb m) RUNNERS) eqn:Hm.
    - now apply rows_of_dataset_keys.
    - now rewrite not_runner_not_runnable. }
  split; [exact Hkeys|].
  intros r Hr E.
  assert (In (row_method r, row_dataset r)
             (filter (runnable bench_settings dataset_exists)
                     (list_prod methods datasets))) as Hin.
  { rewrite <- Hkeys. apply in_map_iff. exists r. now split. }
  apply filter_In in Hin. destruct Hin as [_ Hrun].
  unfold runnable in Hrun. apply andb_true_iff in Hrun. destruct Hrun as [Hk _].
  cbn [fst] in Hk. rewrite E in Hk. vm_compute in Hk. discriminate Hk.
Qed.

(** X13: what a row of [run_all] holds.  The row of a pair holds the loading
    exception when loading raised; it holds the metrics of [compare_pair]
    when loading gave two sequences of equal length; it holds the
    [ValueError] of the length check when the lengths differ.  The [except]
    clause therefore never sees an [IndexError] or a [KeyError] of the core
    operations. *)
Theorem run_all_row_outcome (datasets methods : list string) (r : row LoadError)
    (Hr : In r (run_all bench_settings dataset_exists load datasets methods)) :
  exists setting,
    bench_settings (row_method r) (row_dataset r) = Some setting /\
    match load (row_method r) (row_dataset r) setting with
    | inl e => row_outcome r = RowLoadError e
    | inr (truth, pred) =>
        (length truth = length pred /\
         exists c, compare_pair truth pred = Ok c /\ row_outcome r = RowMetrics c) \/
        (length truth <> length pred /\ row_outcome r = RowError ValueError)
    end.
Proof.
  rewrite run_all_flat_map in Hr. apply in_flat_map in Hr.
  destruct Hr as (m & _ & Hr).
  destruct (existsb (String.eqb m) RUNNERS); [|destruct Hr].
  apply in_flat_map in Hr. destruct Hr as (d & _ & Hr).
  destruct (bench_settings m d) as [setting|] eqn:Hs; [|destruct Hr].
  destruct (dataset_exists d); [|destruct Hr].
  destruct Hr as [<-|[]].
  destruct (run_one_key m d setting) as [-> ->].
  exists setting. split; [assumption|].
  unfold run_one. destruct (load m d setting) as [e|[truth pred]]; [reflexivity|].
  destruct (compare_pair_cases truth pred) as [(E & c & Hc)|(Hne & Hc)]; rewrite Hc.
  - left. split; [assumption|]. exists c. split; reflexivity.
  - right. split; [assumption|reflexivity].
Qed.
End RunAllFacts.

Lemma run_all_rows_witness :
  let bench := fun (_ _ : string) => Some tt in
  let load := fun (_ _ : string) (_ : unit) =>
                (inr (["A"; "A"; "B"], ["X"; "Y"; "Y"]) : string + list label * list label) in
  map (fun r => (row_method r, row_dataset r))
      (run_all bench (fun _ => true) load ["HDFS"; "Linux"] ["SLCT"; "Drain"]) =
  [("Drain", "HDFS"); ("Drain", "Linux")] /\
  row_method (hd (Row "" "" (RowError KeyError))
                 (run_all bench (fun _ => true) load ["HDFS"; "Linux"] ["SLCT"; "Drain"]))
  <> "SLCT".
Proof.
  intros bench load.
  destruct (run_all_rows unit string bench (fun _ => true) load
              ["HDFS"; "Linux"] ["SLCT"; "Drain"]) as [Hkeys Hslct].
  split; [exact Hkeys|]. apply Hslct. left. reflexivity.
Defined.

Lemma run_all_row_outcome_witness :
  let bench := fun (_ _ : string) => Some tt in
  let load := fun (_ d : string) (_ : unit) =>
                if String.eqb d "HDFS"
                then (inr (["A"; "A"; "B"], ["X"; "Y"; "Y"]) : string + list label * list label)
                else inr (["A"; "A"; "B"], ["X"; "Y"]) in
  let rows := run_all bench (fun _ => true) load ["HDFS"; "Linux"] ["Drain"] in
  (exists c, row_outcome (nth 0 rows (Row "" "" (RowError KeyError))) = RowMetrics c) /\
  row_outcome (nth 1 rows (Row "" "" (RowError KeyError))) = RowError ValueError.
Proof.
  intros bench load rows. split.
  - destruct (run_all_row_outcome unit string bench (fun _ => true) load
                ["HDFS"; "Linux"] ["Drain"] (nth 0 rows (Row "" "" (RowError KeyError))))
      as (setting & _ & H); [left; reflexivity|].
    destruct H as [(_ & c & _ & Hc)|(Hne & _)]; [eauto|].
    exfalso. apply Hne. reflexivity.
  - destruct (run_all_row_outcome unit string bench (fun _ => true) load
                ["HDFS"; "Linux"] ["Drain"] (nth 1 rows (Row "" "" (RowError KeyError))))
      as (setting & _ & H); [right; left; reflexivity|].
    destruct H as [(E & _)|(_ & Hc)]; [discriminate E|exact Hc].
Defined.

(** ** [save_results] *)

Lemma contains_replaced (old new : ascii) (s : string) :
  old <> new -> contains (replace_char old new s) (String old EmptyString) = false.
Proof.
  intros Hne. induction s as [|c s IH]; [reflexivity|].
  cbn [replace_char contains]. rewrite IH, orb_false_r. cbn [String.prefix].
  destruct (Ascii.eqb_spec c old) as [->|Hc];
    destruct (Ascii.ascii_dec old _) as [E|_]; congruence.
Qed.

Lemma contains_char_replace (a old new : ascii) (s : string) :
  a <> new ->
  contains s (String a EmptyString) = false ->
  contains (replace_char old new s) (String a EmptyString) = false.
Proof.
  intros Hne. induction s as [|c s IH]; [reflexivity|].
  cbn [replace_char contains String.prefix]. intros H.
  apply orb_false_iff in H. destruct H as [H1 H2].
  rewrite (IH H2), orb_false_r.
  destruct (Ascii.eqb_spec c old) as [->|Hc].
  - destruct (Ascii.ascii_dec a new); congruence.
  - destruct (Ascii.ascii_dec a c); [|reflexivity].
    destruct s; discriminate H1.
Qed.

Lemma length_replace_char (old new : ascii) (s : string) :
  String.length (replace_char old new s) = String.length s.
Proof. induction s as [|c s IH]; simpl; [reflexivity|now rewrite IH]. Qed.

(** X14: the name [save_results] gives the run directory holds neither [":"]
    nor ["."], whatever the time stamp was, and is as long as the time
    stamp. *)
Theorem run_dir_name_safe (iso : string) :
  contains (run_dir_name iso) ":" = false /\
  contains (run_dir_name iso) "." = false /\
  String.length (run_dir_name iso) = String.length iso.
Proof.
  unfold run_dir_name. split; [|split].
  - apply contains_char_replace; [discriminate|].
    apply contains_replaced. discriminate.
  - apply contains_replaced. discriminate.
  - now rewrite !length_replace_char.
Qed.

(** ** [modify_benchmark_file] *)

Section ModifyBenchmark.
Variable rewrite_settings : string -> string.
Variables benchmark_path backup_path : string.
Hypothesis Hdistinct : backup_path <> benchmark_path.

Lemma modify_benchmark_file_first (fs : filesystem) (original : string) :
  fs benchmark_path = Some original -> fs backup_path = None ->
  let fs' := modify_benchmark_file rewrite_settings benchmark_path backup_path fs in
  fs' benchmark_path = Some (rewrite_settings original) /\
  fs' backup_path = Some original /\
  forall q, q <> benchmark_path -> q <> backup_path -> fs' q = fs q.
Proof.
  intros Hp Hb fs'. unfold fs', modify_benchmark_file, write_text, rename.
  rewrite Hp, Hb. rewrite String.eqb_refl.
  apply String.eqb_neq in Hdistinct. rewrite Hdistinct, String.eqb_refl, Hp.
  repeat split. intros q Hq Hq'.
  apply String.eqb_neq in Hq, Hq'. now rewrite Hq, Hq'.
Qed.

Lemma modify_benchmark_file_again (fs : filesystem) (content saved : string) :
  fs benchmark_path = Some content -> fs backup_path = Some saved ->
  let fs' := modify_benchmark_file rewrite_settings benchmark_path backup_path fs in
  fs' benchmark_path = Some (rewrite_settings content) /\
  fs' backup_path = Some saved /\
  forall q, q <> benchmark_path -> fs' q = fs q.
Proof.
  intros Hp Hb fs'. unfold fs', modify_benchmark_file, write_text.
  rewrite Hp, Hb, String.eqb_refl.
  apply String.eqb_neq in Hdistinct. rewrite Hdistinct.
  repeat split; [assumption|]. intros q Hq.
  apply String.eqb_neq in Hq. now rewrite Hq.
Qed.

(** X15: the backup survives reruns.  When the benchmark file exists and has
    no backup yet, then after the script has been run any number of times
    (at least once) the backup still holds the text the benchmark file had
    before the first run, the benchmark file holds that text rewritten once
    per run, and no other file has changed. *)
Theorem backup_survives_reruns (fs : filesystem) (original : string) (n : nat)
    (Hfile : fs benchmark_path = Some original)
    (Hnobackup : fs backup_path = None) :
  let run := modify_benchmark_file rewrite_settings benchmark_path backup_path in
  let fs' := Nat.iter (S n) run fs in
  fs' backup_path = Some original /\
  fs' benchmark_path = Some (Nat.iter (S n) rewrite_settings original) /\
  forall q, q <> benchmark_path -> q <> backup_path -> fs' q = fs q.
Proof.
  intros run. induction n as [|n IH]; intros fs'.
  - destruct (modify_benchmark_file_first fs original Hfile Hnobackup)
      as (Hp & Hb & Hq).
    split; [exact Hb|]. split; [exact Hp|exact Hq].
  - destruct IH as (Hb & Hp & Hq).
    destruct (modify_benchmark_file_again (Nat.iter (S n) run fs) _ _ Hp Hb)
      as (Hp' & Hb' & Hq').
    split; [exact Hb'|]. split; [exact Hp'|].
    intros q H1 H2. unfold fs'. rewrite <- (Hq q H1 H2). now apply Hq'.
Qed.
End ModifyBenchmark.

Lemma backup_survives_reruns_witness :
  let rewrite_settings := fun s : string => String.append s "#" in
  let fs : filesystem :=
    fun q => if String.eqb q "benchmark.py" then Some "settings" else None in
  let fs' :=
    Nat.iter 2 (modify_benchmark_file rewrite_settings "benchmark.py" "benchmark.py.backup")
             fs in
  fs' "benchmark.py.backup" = Some "settings" /\
  fs' "benchmark.py" = Some "settings##" /\
  fs' "other.py" = None.
Proof.
  intros rewrite_settings fs fs'.
  destruct (backup_survives_reruns rewrite_settings "benchmark.py" "benchmark.py.backup"
              ltac:(discriminate) fs "settings" 1 eq_refl eq_refl) as (H1 & H2 & H3).
  split; [exact H1|]. split; [exact H2|].
  apply (H3 "other.py"); discriminate.
Defined.

(** ** Over-splitting, under-splitting and truncation *)

Lemma occ_map_in {A B : Type} (eqa : A -> A -> bool) (eqb : B -> B -> bool)
    (f : A -> B) (x : A) (l : list A) :
  (forall y, In y l -> eqb (f x) (f y) = eqa x y) ->
  occ eqb (f x) (map f l) = occ eqa x l.
Proof.
  induction l as [|y l IH] using rev_ind; intros H; [reflexivity|].
  rewrite map_app. simpl. rewrite !occ_snoc, IH, H.
  - reflexivity.
  - apply in_or_app. right. now left.
  - intros z Hz. apply H. apply in_or_app. now left.
Qed.

Lemma agree_pairs_map_in {A B : Type} (eqa : A -> A -> bool) (eqb : B -> B -> bool)
    (f : A -> B) (l : list A) :
  (forall x y, In x l -> In y l -> eqb (f x) (f y) = eqa x y) ->
  agree_pairs eqb (map f l) = agree_pairs eqa l.
Proof.
  induction l as [|x l IH] using rev_ind; intros H; [reflexivity|].
  rewrite map_app. simpl. rewrite !agree_pairs_snoc, IH.
  - rewrite (occ_map_in eqa eqb); [reflexivity|].
    intros y Hy. apply H; apply in_or_app; [right; now left|now left].
  - intros y z Hy Hz. apply H; apply in_or_app; now left.
Qed.

Lemma accurate_pairs_finer_pred truth pred :
  (length pred <= length truth)%nat -> finer pred truth ->
  agree_pairs pair_eqb (zip truth pred) = agree_pairs String.eqb pred.
Proof.
  intros Hlen Hf. rewrite <- (map_snd_zip truth pred Hlen) at 2.
  symmetry. apply agree_pairs_map_in. intros [t p] [t' p'] Hx Hy.
  unfold pair_eqb. simpl. label_cases p p'; [|now rewrite andb_false_r].
  rewrite andb_true_r. symmetry. apply String.eqb_eq.
  apply finer_refines in Hf. apply (Hf p');
    rewrite (zip_swap truth pred); apply in_map_iff;
    [exists (t, p')|exists (t', p')]; now split.
Qed.

Lemma accurate_pairs_finer_truth truth pred :
  (length truth <= length pred)%nat -> finer truth pred ->
  agree_pairs pair_eqb (zip truth pred) = agree_pairs String.eqb truth.
Proof.
  intros Hlen Hf. rewrite <- (map_fst_zip truth pred Hlen) at 2.
  symmetry. apply agree_pairs_map_in. intros [t p] [t' p'] Hx Hy.
  unfold pair_eqb. simpl. label_cases t t'; [|reflexivity].
  simpl. symmetry. apply String.eqb_eq.
  apply finer_refines in Hf. now apply (Hf t').
Qed.

(** X16: over-splitting costs recall only, under-splitting costs precision
    only.  For equal-length inputs, precision is 1 when every predicted
    cluster lies inside one ground-truth cluster and two lines share a
    predicted label; recall is 1 when every ground-truth cluster lies inside
    one predicted cluster and two lines share a ground-truth label. *)
Theorem splitting_precision_recall (truth pred : list label)
    (Hlen : length truth = length pred) :
  exists m, accuracy_metrics truth pred = Ok m /\
    (finer pred truth -> ~ NoDup pred -> (GA_precision m == 1)%Q) /\
    (finer truth pred -> ~ NoDup truth -> (GA_recall m == 1)%Q).
Proof.
  eexists. split; [apply accuracy_metrics_scores; lia|]. split.
  - intros Hf Hd. rewrite accurate_pairs_finer_pred by (assumption || lia).
    rewrite <- agree_pairs_zero_iff in Hd. unfold scores. simpl.
    destruct (Z.eqb_spec (agree_pairs String.eqb pred) 0); [contradiction|].
    now apply true_div_self.
  - intros Hf Hd. rewrite accurate_pairs_finer_truth by (assumption || lia).
    rewrite <- agree_pairs_zero_iff in Hd. unfold scores. simpl.
    destruct (Z.eqb_spec (agree_pairs String.eqb truth) 0); [contradiction|].
    now apply true_div_self.
Qed.

Lemma splitting_precision_recall_witness :
  (exists m, accuracy_metrics ["A"; "A"; "A"] ["X"; "X"; "Y"] = Ok m /\
     (GA_precision m == 1)%Q) /\
  (exists m, accuracy_metrics ["A"; "A"; "B"] ["X"; "X"; "X"] = Ok m /\
     (GA_recall m == 1)%Q).
Proof.
  split.
  - destruct (splitting_precision_recall ["A"; "A"; "A"] ["X"; "X"; "Y"] eq_refl)
      as (m & H & Hp & _).
    exists m. split; [exact H|]. apply Hp.
    + intros [|[|[|i]]] [|[|[|j]]] x y y' Hi Hj Hi' Hj'; simpl in *;
        try congruence; try (destruct i; discriminate); try (destruct j; discriminate).
    + intros Hnd. inversion Hnd as [|? ? Hin _]; subst. apply Hin. left. reflexivity.
  - destruct (splitting_precision_recall ["A"; "A"; "B"] ["X"; "X"; "X"] eq_refl)
      as (m & H & _ & Hr).
    exists m. split; [exact H|]. apply Hr.
    + intros [|[|[|i]]] [|[|[|j]]] x y y' Hi Hj Hi' Hj'; simpl in *;
        try congruence; try (destruct i; discriminate); try (destruct j; discriminate).
    + intros Hnd. inversion Hnd as [|? ? Hin _]; subst. apply Hin. left. reflexivity.
Defined.

(** X17: a prediction shorter than the ground truth is scored without any
    error, against the full length of the ground truth: PA is at most
    [len(pred) / len(truth)], so it cannot reach 1. *)
Theorem truncated_prediction_PA (truth pred : list label)
    (Hshort : (length pred < length truth)%nat) :
  exists m, accuracy_metrics truth pred = Ok m /\
    (PA m <= true_div (len pred) (len truth))%Q /\
    ~ (PA m == 1)%Q.
Proof.
  eexists. split; [apply accuracy_metrics_scores; lia|].
  pose proof (events_groups_bounds (Counter truth) (zip truth pred)) as [_ Hle].
  assert (len (zip truth pred) = len pred) as E.
  { unfold len, zip. rewrite length_combine. f_equal. lia. }
  rewrite E in Hle.
  assert (len pred < len truth) as Hlt by (unfold len; lia).
  pose proof (len_nonneg pred) as Hp.
  unfold scores. simpl.
  destruct (Z.eqb_spec (len truth) 0); [lia|]. split.
  - apply true_div_le; lia.
  - rewrite true_div_eq_1 by assumption. lia.
Qed.

Lemma truncated_prediction_PA_witness :
  exists m, accuracy_metrics ["A"; "B"] ["X"] = Ok m /\
    (PA m <= true_div 1 2)%Q /\ ~ (PA m == 1)%Q.
Proof. apply (truncated_prediction_PA ["A"; "B"] ["X"]). simpl. lia. Defined.

(** ** A fresh tag *)

Lemma prefix_tag_not_pred (pred : list label) (t : label) :
  Forall (fun q => String.prefix PURE_TAG q = false) pred ->
  ~ In (String.append PURE_TAG t) pred.
Proof.
  intros H Hin. rewrite Forall_forall in H. apply H in Hin.
  rewrite tag_prefix in Hin. discriminate.
Qed.

(** X18: when no predicted label starts with ["__PURE__#"], every label of
    the merged prediction is either the predicted label of its line, left
    unchanged, or a label that starts with ["__PURE__#"] and is not a
    predicted label at all: a merged label never coincides with a genuine
    predicted label. *)
Theorem merged_labels_fresh (truth pred : list label)
    (Hfresh : Forall (fun q => String.prefix PURE_TAG q = false) pred) :
  exists merged_pred pure_coverage,
    collapse_pure_clusters truth pred = Ok (merged_pred, pure_coverage) /\
    forall i p m,
      nth_error pred i = Some p -> nth_error merged_pred i = Some m ->
      m = p \/ (String.prefix PURE_TAG m = true /\ ~ In m pred).
Proof.
  do 2 eexists. split; [apply collapse_pure_clusters_map|].
  intros i p m Hp Hm. rewrite (map_nth_error _ _ _ Hp) in Hm.
  inversion Hm; subst m.
  destruct (relabel_cases (gt_by_pred truth pred) p) as [(t & _ & -> & _)|[-> _]].
  - right. split; [apply tag_prefix|now apply prefix_tag_not_pred].
  - now left.
Qed.

Lemma merged_labels_fresh_witness :
  exists merged_pred pure_coverage,
    collapse_pure_clusters ["A"; "B"; "C"] ["X"; "Y"; "Y"] =
    Ok (merged_pred, pure_coverage) /\
    forall m, nth_error merged_pred 0 = Some m ->
      m = "X" \/ (String.prefix PURE_TAG m = true /\ ~ In m ["X"; "Y"; "Y"]).
Proof.
  destruct (merged_labels_fresh ["A"; "B"; "C"] ["X"; "Y"; "Y"])
    as (mp & c & H & Hall).
  - repeat constructor.
  - exists mp, c. split; [exact H|]. intros m Hm.
    now apply (Hall 0%nat "X" m).
Defined.

(** X19: when no predicted label starts with ["__PURE__#"], collapsing never
    lowers PA on equal-length inputs. *)
Theorem collapse_PA_monotone_no_tag (truth pred : list label)
    (Hlen : length truth = length pred)
    (Hfresh : Forall (fun q => String.prefix PURE_TAG q = false) pred) :
  exists m merged_pred pure_coverage m',
    accuracy_metrics truth pred = Ok m /\
    collapse_pure_clusters truth pred = Ok (merged_pred, pure_coverage) /\
    accuracy_metrics truth merged_pred = Ok m' /\
    (PA m <= PA m')%Q.
Proof.
  apply collapse_PA_monotone_fresh; [assumption|].
  intros q Hq _. rewrite Forall_forall in Hfresh. now apply Hfresh.
Qed.

Lemma collapse_PA_monotone_no_tag_witness :
  exists m merged_pred pure_coverage m',
    accuracy_metrics ["A"; "A"; "B"] ["X"; "Y"; "Z"] = Ok m /\
    collapse_pure_clusters ["A"; "A"; "B"] ["X"; "Y"; "Z"] =
    Ok (merged_pred, pure_coverage) /\
    accuracy_metrics ["A"; "A"; "B"] merged_pred = Ok m' /\
    (PA m <= PA m')%Q.
Proof.
  apply (collapse_PA_monotone_no_tag ["A"; "A"; "B"] ["X"; "Y"; "Z"]);
    [reflexivity|repeat constructor].
Defined.
